(** * Odd/even league: referee game logic, scheduler, standings ledger,
      registration gate and the league manager's request handlers,
      embedded from the Python sources.

    The Python code is embedded shallowly:
    - [str] is [string] (compared by code point, which for the byte strings
      used here is [String.leb]); [int] is [Z]; [Optional[str]] is
      [option string];
    - a [dict] keeps its insertion order, so it is an association list
      with unique keys ([pydict]); where only lookups matter
      ([player_match_count], [pairings_set]) stdpp's [gmap] and [gset] are
      used;
    - a method that mutates [self] returns the new object next to its
      result, and an uncaught exception is a value of [exn];
    - the module variables of the server are a record; a request handler
      returns the new record, its answer and the coroutines it handed to
      [asyncio.create_task], which run after it. *)

From stdpp Require Import gmap strings list sorting pretty.

Local Open Scope Z_scope.

(** ** Python primitives *)

Module Py.

Inductive exn : Type :=
  | KeyError (key : string)
  | IndexError
  | ZeroDivisionError.

Global Instance exn_eq_dec : EqDecision exn.
Proof. solve_decision. Defined.

(** A computation that may raise: [inl e] is the uncaught exception
    [e], and the statements after a raising one are not run. *)
Global Instance exn_bind : MBind (sum exn) := λ A B f m,
  match m with
  | inl e => inl e
  | inr x => f x
  end.

(** Values stored in the [details] dictionaries ([Dict[str, any]]). *)
Inductive pyval : Type :=
  | VInt (z : Z)
  | VStr (s : string).

(** *** Insertion-ordered dictionaries *)

Definition pydict (V : Type) : Type := list (string * V).

Fixpoint dict_get {V} (d : pydict V) (k : string) : option V :=
  match d with
  | [] => None
  | (k', v) :: d' => if decide (k' = k) then Some v else dict_get d' k
  end.

(** [d[k] = v]: an existing key keeps its position, a new key goes last. *)
Fixpoint dict_set {V} (d : pydict V) (k : string) (v : V) : pydict V :=
  match d with
  | [] => [(k, v)]
  | (k', v') :: d' =>
      if decide (k' = k) then (k', v) :: d' else (k', v') :: dict_set d' k v
  end.

(** A dictionary display [{k1: v1, k2: v2, ...}]. *)
Definition dict_lit {V} (kvs : list (string * V)) : pydict V :=
  foldl (λ d kv, dict_set d kv.1 kv.2) [] kvs.

Definition dict_keys {V} (d : pydict V) : list string := d.*1.
Definition dict_values {V} (d : pydict V) : list V := d.*2.

(** *** Sequences *)

(** [l[i]] with Python's negative indices. *)
Definition index {A} (l : list A) (i : Z) : exn + A :=
  let n := Z.of_nat (length l) in
  let j := if decide (i < 0) then i + n else i in
  if decide (0 ≤ j < n) then
    match l !! Z.to_nat j with
    | Some x => inr x
    | None => inl IndexError
    end
  else inl IndexError.

Fixpoint enumerate_from {A} (start : Z) (l : list A) : list (Z * A) :=
  match l with
  | [] => []
  | x :: l' => (start, x) :: enumerate_from (start + 1) l'
  end.

Definition enumerate {A} (l : list A) : list (Z * A) := enumerate_from 0 l.

(** [a % b] on integers. *)
Definition imod (a b : Z) : exn + Z :=
  if decide (b = 0) then inl ZeroDivisionError else inr (a `mod` b).

(** *** Stable sorting

    [sorted] and [list.sort] are stable; [reverse=True] keeps the
    original order of items with equal keys as well.  A stable sort is
    a function of the list and the order alone, and is written here as
    an insertion that never moves an item past an equal one.
    [before x y] says that [x], met earlier in the input, may stay in
    front of [y]. *)

Section stable_sort.
Context {A : Type} (before : A → A → bool).

Fixpoint insert_sorted (x : A) (l : list A) : list A :=
  match l with
  | [] => [x]
  | y :: l' => if before x y then x :: y :: l' else y :: insert_sorted x l'
  end.

Fixpoint stable_sort (l : list A) : list A :=
  match l with
  | [] => []
  | x :: l' => insert_sorted x (stable_sort l')
  end.
End stable_sort.

(** [sorted(l)] on a list of strings. *)
Definition sorted (l : list string) : list string :=
  stable_sort String.leb l.

(** *** Strings *)

(** [str.lower] on ASCII text: [A-Z] go to [a-z], every other byte is
    kept.  A [string] is a sequence of bytes; on text with characters
    outside ASCII [str.lower] follows the Unicode tables, which this
    function does not, so the statements that depend on the lowercase
    form of a text take ASCII text. *)
Definition lower_ascii (c : Ascii.ascii) : Ascii.ascii :=
  let n := Ascii.N_of_ascii c in
  if decide (65 ≤ n ≤ 90)%N then Ascii.ascii_of_N (n + 32) else c.

Fixpoint lower (s : string) : string :=
  match s with
  | EmptyString => EmptyString
  | String c s' => String (lower_ascii c) (lower s')
  end.

(** [str(n)] and the f-string field [{n}]. *)
Definition str_int (n : Z) : string := pretty n.

Fixpoint zeros (k : nat) : string :=
  match k with
  | O => ""
  | S k' => "0" +:+ zeros k'
  end.

(** The f-string field [{n:02d}]: sign first, then zeros up to width 2. *)
Definition format_02d (n : Z) : string :=
  let digits := pretty (Z.abs n) in
  let sign := if decide (n < 0) then "-" else "" in
  let used := (String.length sign + String.length digits)%nat in
  sign +:+ zeros (2 - used) +:+ digits.

End Py.

Import Py.

(** ** referee-1/game_logic.py *)

Module GameLogic.

Definition get_parity (number : Z) : string :=
  if decide (number `mod` 2 = 1) then "odd" else "even".

Definition calculate_match_result
    (player_A_id player_A_choice player_B_id player_B_choice : string)
    (drawn_number : Z)
  : option string * pydict Z * pydict pyval :=
  let drawn_parity := get_parity drawn_number in
  let choice_A := lower player_A_choice in
  let choice_B := lower player_B_choice in
  let '(winner, score, outcome) :=
    if decide (choice_A = choice_B) then
      (None, dict_lit [(player_A_id, 1); (player_B_id, 1)], "DRAW")
    else if decide (choice_A = drawn_parity) then
      (Some player_A_id,
       dict_lit [(player_A_id, 3); (player_B_id, 0)],
       player_A_id +:+ " WINS")
    else
      (Some player_B_id,
       dict_lit [(player_A_id, 0); (player_B_id, 3)],
       player_B_id +:+ " WINS") in
  let details :=
    dict_lit [("drawn_number", VInt drawn_number);
              ("drawn_parity", VStr drawn_parity);
              ("player_A_choice", VStr choice_A);
              ("player_B_choice", VStr choice_B);
              ("outcome", VStr outcome)] in
  (winner, score, details).

Definition handle_player_timeout
    (player_A_id player_B_id : string)
    (player_A_responded player_B_responded : bool)
  : option string * pydict Z * pydict pyval :=
  if negb player_A_responded && negb player_B_responded then
    (None,
     dict_lit [(player_A_id, 0); (player_B_id, 0)],
     dict_lit [("outcome", VStr "DOUBLE_FORFEIT")])
  else if negb player_A_responded then
    (Some player_B_id,
     dict_lit [(player_A_id, 0); (player_B_id, 3)],
     dict_lit [("outcome", VStr (player_A_id +:+ "_FORFEIT"))])
  else
    (Some player_A_id,
     dict_lit [(player_A_id, 3); (player_B_id, 0)],
     dict_lit [("outcome", VStr (player_B_id +:+ "_FORFEIT"))]).

(** Projections of an outcome triple. *)
Definition winner_of {D} (r : option string * pydict Z * D) : option string :=
  r.1.1.
Definition score_of {D} (r : option string * pydict Z * D) : pydict Z :=
  r.1.2.

Definition score_total (score : pydict Z) : Z :=
  foldr Z.add 0 (dict_values score).

End GameLogic.

(** ** league-manager/models.py *)

Module Match.
Record t : Type := mk {
  match_id : string;
  game_type : string;
  player_A_id : string;
  player_B_id : string;
  referee_id : string
}.
End Match.

Module MatchResult.
Record t : Type := mk {
  round_id : string;
  match_id : string;
  winner : option string;
  score : pydict Z;
  details : option (pydict pyval)
}.
End MatchResult.

Module StandingsData.
Record t : Type := mk {
  played : Z;
  wins : Z;
  draws : Z;
  losses : Z;
  points : Z;
  display_name : string
}.

(** [StandingsData(display_name=name)]: every counter at its default. *)
Definition new (name : string) : t := mk 0 0 0 0 0 name.
End StandingsData.

Module PlayerStanding.
Record t : Type := mk {
  rank : Z;
  player_id : string;
  display_name : string;
  played : Z;
  wins : Z;
  draws : Z;
  losses : Z;
  points : Z
}.
End PlayerStanding.

Module RegistrationRequest.
Record t : Type := mk {
  display_name : string;
  version : string;
  game_types : list string;
  contact_endpoint : string;
  max_concurrent_matches : Z
}.
End RegistrationRequest.

Module RegistrationResponse.
Record t : Type := mk {
  status : string;
  participant_id : string;
  auth_token : string
}.
End RegistrationResponse.

Module Participant.
(** [registered_at] is the reading of the clock, kept as an opaque
    number. *)
Record t : Type := mk {
  participant_id : string;
  display_name : string;
  contact_endpoint : string;
  auth_token : string;
  registered_at : Z
}.
End Participant.

(** ** league-manager/scheduler.py *)

Module Scheduler.

Record TournamentScheduler : Type := mkScheduler {
  player_ids : list string;
  referee_ids : list string;
  schedule : list (list Match.t)
}.

Definition set_schedule (self : TournamentScheduler)
    (s : list (list Match.t)) : TournamentScheduler :=
  mkScheduler (player_ids self) (referee_ids self) s.

(** [TournamentScheduler.__init__] *)
Definition init (player_ids referee_ids : list string) : TournamentScheduler :=
  mkScheduler (sorted player_ids) (sorted referee_ids) [].

Definition pairings : list (list (Z * Z)) :=
  [ [(0, 1); (2, 3)];
    [(0, 2); (1, 3)];
    [(0, 3); (1, 2)] ].

(** The body of the inner loop up to the construction of the [Match];
    the operations are in the order in which Python evaluates them. *)
Definition make_match (self : TournamentScheduler)
    (round_num match_idx : Z) (p : Z * Z) : exn + Match.t :=
  let match_num := match_idx + 1 in
  referee_idx ← imod match_idx (Z.of_nat (length (referee_ids self)));
  referee_id ← index (referee_ids self) referee_idx;
  player_A ← index (player_ids self) p.1;
  player_B ← index (player_ids self) p.2;
  inr (Match.mk ("R" +:+ str_int round_num +:+ "M" +:+ str_int match_num)
                "even_odd" player_A player_B referee_id).

(** The inner [for], with [round_matches] as accumulator. *)
Fixpoint build_round (self : TournamentScheduler) (round_num : Z)
    (todo : list (Z * (Z * Z))) (round_matches : list Match.t)
  : exn + list Match.t :=
  match todo with
  | [] => inr round_matches
  | (match_idx, p) :: todo' =>
      m ← make_match self round_num match_idx p;
      build_round self round_num todo' (round_matches ++ [m])
  end.

(** The outer [for]: a finished round is appended to [self.schedule];
    an exception leaves the rounds appended so far. *)
Fixpoint build_rounds (self : TournamentScheduler)
    (todo : list (Z * list (Z * Z))) : TournamentScheduler * (exn + ()) :=
  match todo with
  | [] => (self, inr ())
  | (round_idx, round_pairings) :: todo' =>
      let round_num := round_idx + 1 in
      match build_round self round_num (enumerate round_pairings) [] with
      | inl e => (self, inl e)
      | inr round_matches =>
          build_rounds (set_schedule self (schedule self ++ [round_matches]))
                       todo'
      end
  end.

Definition generate_schedule (self : TournamentScheduler)
  : TournamentScheduler * (exn + list (list Match.t)) :=
  let self0 := set_schedule self [] in
  let '(self', r) := build_rounds self0 (enumerate pairings) in
  (self', match r with
          | inl e => inl e
          | inr _ => inr (schedule self')
          end).

(** [player_match_count[pid] += 1] *)
Definition incr_count (counts : gmap string Z) (pid : string)
  : exn + gmap string Z :=
  match counts !! pid with
  | Some c => inr (<[pid := c + 1]> counts)
  | None => inl (KeyError pid)
  end.

(** The first pair of nested loops of [validate_schedule]; the matches
    are visited round by round, that is in the order of
    [concat self.schedule]. *)
Fixpoint count_matches (counts : gmap string Z) (matches : list Match.t)
  : exn + gmap string Z :=
  match matches with
  | [] => inr counts
  | m :: matches' =>
      counts1 ← incr_count counts (Match.player_A_id m);
      counts2 ← incr_count counts1 (Match.player_B_id m);
      count_matches counts2 matches'
  end.

(** [tuple(sorted([a, b]))] *)
Definition pairing_of (m : Match.t) : list string :=
  sorted [Match.player_A_id m; Match.player_B_id m].

(** The second pair of nested loops, which returns [False] from inside. *)
Fixpoint check_pairings (pairings_set : gset (list string))
    (matches : list Match.t) : bool :=
  match matches with
  | [] => true
  | m :: matches' =>
      let pairing := pairing_of m in
      if decide (pairing ∈ pairings_set) then false
      else check_pairings (pairings_set ∪ {[pairing]}) matches'
  end.

Definition validate_schedule (self : TournamentScheduler) : exn + bool :=
  let player_match_count : gmap string Z :=
    foldl (λ d pid, <[pid := 0]> d) ∅ (player_ids self) in
  counts ← count_matches player_match_count (concat (schedule self));
  if negb (forallb (λ count, bool_decide (count = 3))
                   (map_to_list counts).*2)
  then inr false
  else inr (check_pairings ∅ (concat (schedule self))).

(** [get_round_matches]: rounds are numbered from 1. *)
Definition get_round_matches (self : TournamentScheduler) (round_num : Z)
  : exn + list Match.t :=
  if decide (1 ≤ round_num ≤ Z.of_nat (length (schedule self))) then
    index (schedule self) (round_num - 1)
  else inr [].

Definition get_total_rounds (self : TournamentScheduler) : Z :=
  Z.of_nat (length (schedule self)).

End Scheduler.

(** ** league-manager/standings.py *)

Module Standings.

Record StandingsManager : Type := mkManager {
  standings : pydict StandingsData.t
}.

(** [StandingsManager.__init__] *)
Definition init : StandingsManager := mkManager [].

(** A method body: it runs on [self], leaves the mutated [self], and
    either finishes or raises. *)
Definition stmt : Type := StandingsManager → StandingsManager * (exn + ()).

Definition skip : stmt := λ self, (self, inr ()).

Definition seq (s1 s2 : stmt) : stmt := λ self,
  match s1 self with
  | (self1, inr _) => s2 self1
  | (self1, inl e) => (self1, inl e)
  end.

Notation "s1 ;; s2" := (seq s1 s2) (at level 100, right associativity).

(** [self.standings[pid].<field> += n]: the subscript raises [KeyError]
    for an absent id, otherwise the stored object is updated. *)
Definition update_entry (f : StandingsData.t → StandingsData.t)
    (pid : string) : stmt := λ self,
  match dict_get (standings self) pid with
  | Some data => (mkManager (dict_set (standings self) pid (f data)), inr ())
  | None => (self, inl (KeyError pid))
  end.

Definition add_played (n : Z) (d : StandingsData.t) : StandingsData.t :=
  StandingsData.mk (StandingsData.played d + n) (StandingsData.wins d)
    (StandingsData.draws d) (StandingsData.losses d)
    (StandingsData.points d) (StandingsData.display_name d).
Definition add_wins (n : Z) (d : StandingsData.t) : StandingsData.t :=
  StandingsData.mk (StandingsData.played d) (StandingsData.wins d + n)
    (StandingsData.draws d) (StandingsData.losses d)
    (StandingsData.points d) (StandingsData.display_name d).
Definition add_draws (n : Z) (d : StandingsData.t) : StandingsData.t :=
  StandingsData.mk (StandingsData.played d) (StandingsData.wins d)
    (StandingsData.draws d + n) (StandingsData.losses d)
    (StandingsData.points d) (StandingsData.display_name d).
Definition add_losses (n : Z) (d : StandingsData.t) : StandingsData.t :=
  StandingsData.mk (StandingsData.played d) (StandingsData.wins d)
    (StandingsData.draws d) (StandingsData.losses d + n)
    (StandingsData.points d) (StandingsData.display_name d).
Definition add_points (n : Z) (d : StandingsData.t) : StandingsData.t :=
  StandingsData.mk (StandingsData.played d) (StandingsData.wins d)
    (StandingsData.draws d) (StandingsData.losses d)
    (StandingsData.points d + n) (StandingsData.display_name d).

Definition initialize_player (self : StandingsManager)
    (player_id display_name : string) : StandingsManager :=
  mkManager (dict_set (standings self) player_id
                      (StandingsData.new display_name)).

Definition update_from_result (result : MatchResult.t) : stmt :=
  let score := MatchResult.score result in
  let winner := MatchResult.winner result in
  let players := dict_keys score in
  match players with
  | [player_a; player_b] =>
      update_entry (add_played 1) player_a ;;
      update_entry (add_played 1) player_b ;;
      if bool_decide (winner = None ∨ winner = Some "") then
        update_entry (add_draws 1) player_a ;;
        update_entry (add_points 1) player_a ;;
        update_entry (add_draws 1) player_b ;;
        update_entry (add_points 1) player_b
      else if bool_decide (winner = Some player_a) then
        update_entry (add_wins 1) player_a ;;
        update_entry (add_points 3) player_a ;;
        update_entry (add_losses 1) player_b
      else if bool_decide (winner = Some player_b) then
        update_entry (add_wins 1) player_b ;;
        update_entry (add_points 3) player_b ;;
        update_entry (add_losses 1) player_a
      else
        skip
  | _ => skip
  end.

(** The dictionaries collected in [standings_list]. *)
Record row : Type := mkRow {
  player_id : string;
  display_name : string;
  played : Z;
  wins : Z;
  draws : Z;
  losses : Z;
  points : Z
}.

Definition row_of (item : string * StandingsData.t) : row :=
  let '(pid, data) := item in
  mkRow pid (StandingsData.display_name data) (StandingsData.played data)
    (StandingsData.wins data) (StandingsData.draws data)
    (StandingsData.losses data) (StandingsData.points data).

Definition sort_key (x : row) : Z * Z := (points x, wins x).

(** [a <= b] on pairs of integers. *)
Definition tuple_le (a b : Z * Z) : bool :=
  bool_decide (a.1 < b.1) || (bool_decide (a.1 = b.1) && bool_decide (a.2 ≤ b.2)).

(** [l.sort(key=sort_key, reverse=True)]: descending keys, and an
    earlier item stays in front of a later one with the same key. *)
Definition sort_reverse (l : list row) : list row :=
  stable_sort (λ x y, tuple_le (sort_key y) (sort_key x)) l.

Definition ranked (item : Z * row) : PlayerStanding.t :=
  let '(rank, standing) := item in
  PlayerStanding.mk rank (player_id standing) (display_name standing)
    (played standing) (wins standing) (draws standing) (losses standing)
    (points standing).

Definition get_sorted_standings (self : StandingsManager)
  : list PlayerStanding.t :=
  let standings_list := row_of <$> standings self in
  ranked <$> enumerate_from 1 (sort_reverse standings_list).

(** [self.standings.get(player_id)] *)
Definition get_player_data (self : StandingsManager) (player_id : string)
  : option StandingsData.t :=
  dict_get (standings self) player_id.

End Standings.

(** ** league-manager/registration.py *)

Module Registration.

Record RegistrationManager : Type := mkManager {
  referees : pydict Participant.t;
  players : pydict Participant.t;
  referee_count : Z;
  player_count : Z
}.

(** [RegistrationManager.__init__] *)
Definition init : RegistrationManager := mkManager [] [] 0 0.

(** [auth_token] is what [generate_token] returns for this call and
    [now] what the clock reads. *)
Definition register_referee (self : RegistrationManager)
    (request : RegistrationRequest.t) (auth_token : string) (now : Z)
  : RegistrationManager * option RegistrationResponse.t :=
  if referee_count self >=? 2 then (self, None)
  else
    let count := referee_count self + 1 in
    let referee_id := "REF" +:+ format_02d count in
    let participant :=
      Participant.mk referee_id (RegistrationRequest.display_name request)
        (RegistrationRequest.contact_endpoint request) auth_token now in
    (mkManager (dict_set (referees self) referee_id participant)
               (players self) count (player_count self),
     Some (RegistrationResponse.mk "ACCEPTED" referee_id auth_token)).

Definition register_player (self : RegistrationManager)
    (request : RegistrationRequest.t) (auth_token : string) (now : Z)
  : RegistrationManager * option RegistrationResponse.t :=
  if player_count self >=? 4 then (self, None)
  else
    let count := player_count self + 1 in
    let player_id := "P" +:+ format_02d count in
    let participant :=
      Participant.mk player_id (RegistrationRequest.display_name request)
        (RegistrationRequest.contact_endpoint request) auth_token now in
    (mkManager (referees self)
               (dict_set (players self) player_id participant)
               (referee_count self) count,
     Some (RegistrationResponse.mk "ACCEPTED" player_id auth_token)).

Definition all_registered (self : RegistrationManager) : bool :=
  bool_decide (referee_count self = 2) && bool_decide (player_count self = 4).

(** A registration message reaching the manager, with the token and the
    clock reading drawn while it is handled. *)
Inductive role : Type := Referee | Player.

Global Instance role_eq_dec : EqDecision role.
Proof. solve_decision. Defined.

Record attempt : Type := mkAttempt {
  who : role;
  request : RegistrationRequest.t;
  token : string;
  clock : Z
}.

Definition register (self : RegistrationManager) (a : attempt)
  : RegistrationManager * option RegistrationResponse.t :=
  match who a with
  | Referee => register_referee self (request a) (token a) (clock a)
  | Player => register_player self (request a) (token a) (clock a)
  end.

(** The manager after a sequence of registration messages, starting
    from [self]. *)
Definition after (self : RegistrationManager) (attempts : list attempt)
  : RegistrationManager :=
  foldl (λ s a, (register s a).1) self attempts.

(** What each message of the sequence is answered with. *)
Fixpoint replies (self : RegistrationManager) (attempts : list attempt)
  : list (option RegistrationResponse.t) :=
  match attempts with
  | [] => []
  | a :: attempts' =>
      let '(self', reply) := register self a in
      reply :: replies self' attempts'
  end.

(** How many of the attempts are of the given role. *)
Definition attempts_of (r : role) (attempts : list attempt) : Z :=
  Z.of_nat (length (filter (λ a, who a = r) attempts)).

(** [get_participant]: the prefix of the id selects the map. *)
Definition get_participant (self : RegistrationManager)
    (participant_id : string) : option Participant.t :=
  if String.prefix "REF" participant_id then
    dict_get (referees self) participant_id
  else if String.prefix "P" participant_id then
    dict_get (players self) participant_id
  else None.

Definition validate_token (self : RegistrationManager)
    (participant_id token : string) : bool :=
  match get_participant self participant_id with
  | None => false
  | Some participant => bool_decide (Participant.auth_token participant = token)
  end.

Definition get_referee_endpoint (self : RegistrationManager)
    (referee_id : string) : option string :=
  match dict_get (referees self) referee_id with
  | Some referee => Some (Participant.contact_endpoint referee)
  | None => None
  end.

Definition get_player_endpoint (self : RegistrationManager)
    (player_id : string) : option string :=
  match dict_get (players self) player_id with
  | Some player => Some (Participant.contact_endpoint player)
  | None => None
  end.

Definition get_all_player_ids (self : RegistrationManager) : list string :=
  dict_keys (players self).

End Registration.

(** ** player-1/game_logic.py *)

Module PlayerLogic.

(** [make_move], with the number that [random.randint(1, 10)] returns as
    argument. *)
Definition make_move (drawn_number : Z) : Z * string :=
  let choice := if decide (drawn_number `mod` 2 = 0) then "even" else "odd" in
  (drawn_number, choice).

End PlayerLogic.

(** ** referee-2/referee_server.py and referee-1/protocol.py *)

Module Referee.

(** The truth value of an [Optional[str]]: [None] and the empty string
    are false. *)
Definition truthy (s : option string) : bool :=
  match s with
  | Some s' => negb (String.eqb s' "")
  | None => false
  end.

(** Step 3 of [conduct_match]: [choice_A] and [choice_B] are what
    [request_player_choice] returned, [drawn_number] what
    [draw_random_number] returns if it is called. *)
Definition calculate_result (player_A_id player_B_id : string)
    (choice_A choice_B : option string) (drawn_number : Z)
  : option string * pydict Z * pydict pyval :=
  if truthy choice_A && truthy choice_B then
    GameLogic.calculate_match_result
      player_A_id (default "" choice_A) player_B_id (default "" choice_B)
      drawn_number
  else
    GameLogic.handle_player_timeout player_A_id player_B_id
      (bool_decide (choice_A ≠ None)) (bool_decide (choice_B ≠ None)).

(** The body fields of [create_result_report], as the league manager
    reads them into a [MatchResult]; the envelope fields are not part of
    that model. *)
Definition create_result_report (round_id match_id : string)
    (winner : option string) (score : pydict Z) (details : pydict pyval)
  : MatchResult.t :=
  MatchResult.mk round_id match_id (if truthy winner then winner else None)
    score (Some details).

(** Steps 3 and 4 together: the report of a match. *)
Definition match_report (round_id match_id player_A_id player_B_id : string)
    (choice_A choice_B : option string) (drawn_number : Z) : MatchResult.t :=
  let '(winner, score, details) :=
    calculate_result player_A_id player_B_id choice_A choice_B drawn_number in
  create_result_report round_id match_id winner score details.

End Referee.

(** ** Shapes of values used in the statements *)

(** A score map with two keys whose values add up to one of [totals]. *)
Definition two_keys_with_total (totals : list Z) (score : pydict Z) : Prop :=
  length (dict_keys score) = 2%nat ∧ GameLogic.score_total score ∈ totals.

(** The two players of a match are [x] and [y], in either order. *)
Definition meets (x y : string) (m : Match.t) : Prop :=
  (Match.player_A_id m = x ∧ Match.player_B_id m = y) ∨
  (Match.player_A_id m = y ∧ Match.player_B_id m = x).

Global Instance meets_dec x y m : Decision (meets x y m).
Proof. unfold meets. apply _. Defined.

(** [x] is one of the two players of a match. *)
Definition takes_part (x : string) (m : Match.t) : Prop :=
  Match.player_A_id m = x ∨ Match.player_B_id m = x.

Global Instance takes_part_dec x m : Decision (takes_part x m).
Proof. unfold takes_part. apply _. Defined.

(** The schedule written out for sorted players [a b c d] and sorted
    referees [r1 r2]. *)
Definition round_robin (a b c d r1 r2 : string) : list (list Match.t) :=
  [ [Match.mk "R1M1" "even_odd" a b r1; Match.mk "R1M2" "even_odd" c d r2];
    [Match.mk "R2M1" "even_odd" a c r1; Match.mk "R2M2" "even_odd" b d r2];
    [Match.mk "R3M1" "even_odd" a d r1; Match.mk "R3M2" "even_odd" b c r2] ].

(** How many times [x] is named by the matches, once for each side. *)
Fixpoint appearances (x : string) (matches : list Match.t) : Z :=
  match matches with
  | [] => 0
  | m :: matches' =>
      (if decide (Match.player_A_id m = x) then 1 else 0) +
      (if decide (Match.player_B_id m = x) then 1 else 0) +
      appearances x matches'
  end.

(** Some unordered pair of players is the pairing of two matches or more. *)
Definition repeated_pairing (matches : list Match.t) : Prop :=
  ∃ x y, (1 < length (filter (meets x y) matches))%nat.

(** Both players of every match are known to the scheduler. *)
Definition known_players (self : Scheduler.TournamentScheduler) : Prop :=
  Forall (λ m, Match.player_A_id m ∈ Scheduler.player_ids self ∧
               Match.player_B_id m ∈ Scheduler.player_ids self)
         (concat (Scheduler.schedule self)).

(** The entries with the given points and wins. *)
Definition tied (pts w : Z) (r : Standings.row) : Prop :=
  Standings.points r = pts ∧ Standings.wins r = w.

Global Instance tied_dec pts w r : Decision (tied pts w r).
Proof. unfold tied. apply _. Defined.

(** The ids handed out to each role, in the order of acceptance. *)
Definition issued_ids (r : Registration.role) : list string :=
  match r with
  | Registration.Referee => ["REF01"; "REF02"]
  | Registration.Player => ["P01"; "P02"; "P03"; "P04"]
  end.

(** The manager after an accepted registration of [a] under [id]. *)
Definition accepted (self : Registration.RegistrationManager)
    (a : Registration.attempt) (id : string)
  : Registration.RegistrationManager :=
  let participant :=
    Participant.mk id
      (RegistrationRequest.display_name (Registration.request a))
      (RegistrationRequest.contact_endpoint (Registration.request a))
      (Registration.token a) (Registration.clock a) in
  match Registration.who a with
  | Registration.Referee =>
      Registration.mkManager
        (dict_set (Registration.referees self) id participant)
        (Registration.players self)
        (Registration.referee_count self + 1)
        (Registration.player_count self)
  | Registration.Player =>
      Registration.mkManager
        (Registration.referees self)
        (dict_set (Registration.players self) id participant)
        (Registration.referee_count self)
        (Registration.player_count self + 1)
  end.

(** Three referees and five players announcing themselves, interleaved. *)
Definition sample_request : RegistrationRequest.t :=
  RegistrationRequest.mk "n" "1.0" ["even_odd"] "http://h/MCP" 1.

Definition sample_messages : list Registration.attempt :=
  [ Registration.mkAttempt Registration.Referee sample_request "t1" 1;
    Registration.mkAttempt Registration.Player sample_request "t2" 2;
    Registration.mkAttempt Registration.Referee sample_request "t3" 3;
    Registration.mkAttempt Registration.Referee sample_request "t4" 4;
    Registration.mkAttempt Registration.Player sample_request "t5" 5;
    Registration.mkAttempt Registration.Player sample_request "t6" 6;
    Registration.mkAttempt Registration.Player sample_request "t7" 7;
    Registration.mkAttempt Registration.Player sample_request "t8" 8 ].

(** [d[k] = f(d[k])] for a key that may be absent (then nothing is done). *)
Definition dict_alter {V} (f : V → V) (k : string) (d : pydict V) : pydict V :=
  match dict_get d k with
  | Some v => dict_set d k (f v)
  | None => d
  end.

(** A row with the given amounts added to its five counters. *)
Definition credit (played wins draws losses points : Z)
    (d : StandingsData.t) : StandingsData.t :=
  StandingsData.mk (StandingsData.played d + played)
    (StandingsData.wins d + wins) (StandingsData.draws d + draws)
    (StandingsData.losses d + losses) (StandingsData.points d + points)
    (StandingsData.display_name d).

(** What a result with score keys [a] and [b] adds to the rows of [a]
    and of [b]: a draw, a win of [a], a win of [b], or a winner who is
    neither. *)
Definition booking (winner : option string) (a b : string)
  : (StandingsData.t → StandingsData.t) * (StandingsData.t → StandingsData.t) :=
  if bool_decide (winner = None ∨ winner = Some "") then
    (credit 1 0 1 0 1, credit 1 0 1 0 1)
  else if bool_decide (winner = Some a) then
    (credit 1 1 0 0 3, credit 1 0 0 1 0)
  else if bool_decide (winner = Some b) then
    (credit 1 0 0 1 0, credit 1 1 0 0 3)
  else
    (credit 1 0 0 0 0, credit 1 0 0 0 0).

(** The ledger after the results have been given to
    [update_from_result] one after the other; an exception ends the call
    that raised it (the request handler catches it), not the sequence. *)
Definition update_all (self : Standings.StandingsManager)
    (results : list MatchResult.t) : Standings.StandingsManager :=
  foldl (λ s result, (Standings.update_from_result result s).1) self results.

(** The two bookkeeping identities of a row. *)
Definition points_add_up (d : StandingsData.t) : Prop :=
  StandingsData.points d = 3 * StandingsData.wins d + StandingsData.draws d.

Definition played_adds_up (d : StandingsData.t) : Prop :=
  StandingsData.played d
  = StandingsData.wins d + StandingsData.draws d + StandingsData.losses d.

(** A result between two different players of the ledger whose winner
    is nobody or one of the two. *)
Definition regular (self : Standings.StandingsManager)
    (result : MatchResult.t) : Prop :=
  ∃ a b,
    dict_keys (MatchResult.score result) = [a; b] ∧ a ≠ b ∧
    is_Some (Standings.get_player_data self a) ∧
    is_Some (Standings.get_player_data self b) ∧
    (MatchResult.winner result = None ∨ MatchResult.winner result = Some "" ∨
     MatchResult.winner result = Some a ∨ MatchResult.winner result = Some b).

(** How many of the results name [p] in their score map. *)
Definition reports_naming (p : string) (results : list MatchResult.t) : Z :=
  Z.of_nat (length (filter (λ r, p ∈ dict_keys (MatchResult.score r)) results)).

(** [self'] has the players of [self], in the same order and under the
    same display names. *)
Definition same_players (self self' : Standings.StandingsManager) : Prop :=
  dict_keys (Standings.standings self') = dict_keys (Standings.standings self) ∧
  ∀ p, StandingsData.display_name <$> Standings.get_player_data self' p
       = StandingsData.display_name <$> Standings.get_player_data self p.

(** The state of the registration manager after [nr] referees and [np]
    players have been accepted: counters, keys of the two maps in the
    order of acceptance, and every participant stored under its own id. *)
Definition roster (self : Registration.RegistrationManager) (nr np : nat)
  : Prop :=
  Registration.referee_count self = Z.of_nat nr ∧
  Registration.player_count self = Z.of_nat np ∧
  (nr ≤ 2)%nat ∧ (np ≤ 4)%nat ∧
  dict_keys (Registration.referees self)
    = take nr (issued_ids Registration.Referee) ∧
  dict_keys (Registration.players self)
    = take np (issued_ids Registration.Player) ∧
  (∀ id p, dict_get (Registration.referees self) id = Some p →
           Participant.participant_id p = id) ∧
  (∀ id p, dict_get (Registration.players self) id = Some p →
           Participant.participant_id p = id).

(** The participant record made from an accepted attempt. *)
Definition participant_of (a : Registration.attempt) (id : string)
  : Participant.t :=
  Participant.mk id
    (RegistrationRequest.display_name (Registration.request a))
    (RegistrationRequest.contact_endpoint (Registration.request a))
    (Registration.token a) (Registration.clock a).

(** ** league-manager/server.py *)

Module Server.

(** The module-level variables of the server. *)
Record state : Type := mkState {
  registration_mgr : Registration.RegistrationManager;
  standings_mgr : Standings.StandingsManager;
  scheduler : option Scheduler.TournamentScheduler;
  current_round : Z;
  match_results : pydict MatchResult.t;
  tournament_started : bool
}.

Definition initial : state :=
  mkState Registration.init Standings.init None 0 [] false.

(** A coroutine handed to [asyncio.create_task]: it runs after the
    handler that created it has returned. *)
Inductive task : Type := StartTournament | FinishRound.

Global Instance task_eq_dec : EqDecision task.
Proof. solve_decision. Defined.

(** What a request is answered with: the body fields that the handler
    adds to the envelope, or an [HTTPException] with its status code. *)
Inductive response : Type :=
  | Registered (status participant_id auth_token : string)
  | Acknowledged
  | HttpError (status_code : Z).

(** A request with a well-formed body.  A registration comes with the
    token and the clock reading drawn while it is handled. *)
Inductive message : Type :=
  | RefereeRegisterRequest
      (request : RegistrationRequest.t) (token : string) (clock : Z)
  | PlayerRegisterRequest
      (request : RegistrationRequest.t) (token : string) (clock : Z)
  | MatchResultReport (result : MatchResult.t)
  | OtherMessage (message_type : string).

Definition handle_referee_registration (st : state)
    (request : RegistrationRequest.t) (token : string) (clock : Z)
  : state * response * list task :=
  let '(mgr, reply) :=
    Registration.register_referee (registration_mgr st) request token clock in
  let st1 :=
    mkState mgr (standings_mgr st) (scheduler st) (current_round st)
      (match_results st) (tournament_started st) in
  match reply with
  | None => (st1, HttpError 400, [])
  | Some r =>
      (st1,
       Registered (RegistrationResponse.status r)
         (RegistrationResponse.participant_id r)
         (RegistrationResponse.auth_token r),
       if Registration.all_registered mgr then [StartTournament] else [])
  end.

Definition handle_player_registration (st : state)
    (request : RegistrationRequest.t) (token : string) (clock : Z)
  : state * response * list task :=
  let '(mgr, reply) :=
    Registration.register_player (registration_mgr st) request token clock in
  match reply with
  | None =>
      (mkState mgr (standings_mgr st) (scheduler st) (current_round st)
         (match_results st) (tournament_started st),
       HttpError 400, [])
  | Some r =>
      let ledger :=
        Standings.initialize_player (standings_mgr st)
          (RegistrationResponse.participant_id r)
          (RegistrationRequest.display_name request) in
      (mkState mgr ledger (scheduler st) (current_round st)
         (match_results st) (tournament_started st),
       Registered (RegistrationResponse.status r)
         (RegistrationResponse.participant_id r)
         (RegistrationResponse.auth_token r),
       if Registration.all_registered mgr then [StartTournament] else [])
  end.

(** [handle_match_result]: any exception inside the [try] becomes
    status 400; calling a method of the scheduler while it is still
    [None] is one of them. *)
Definition handle_match_result (st : state) (result : MatchResult.t)
  : state * response * list task :=
  match Standings.update_from_result result (standings_mgr st) with
  | (ledger, inl _) =>
      (mkState (registration_mgr st) ledger (scheduler st) (current_round st)
         (match_results st) (tournament_started st),
       HttpError 400, [])
  | (ledger, inr _) =>
      let results :=
        dict_set (match_results st) (MatchResult.match_id result) result in
      let st1 :=
        mkState (registration_mgr st) ledger (scheduler st) (current_round st)
          results (tournament_started st) in
      match scheduler st with
      | None => (st1, HttpError 400, [])
      | Some sched =>
          match Scheduler.get_round_matches sched (current_round st) with
          | inl _ => (st1, HttpError 400, [])
          | inr round_matches =>
              let round_complete :=
                forallb (λ m, bool_decide
                                (Match.match_id m ∈ dict_keys results))
                        round_matches in
              (st1, Acknowledged,
               if round_complete then [FinishRound] else [])
          end
      end
  end.

(** [mcp_endpoint]: the dispatch on the message type, inside a [try]
    that turns every exception, the handlers' [HTTPException] included,
    into status 500. *)
Definition mcp_endpoint (st : state) (msg : message)
  : state * response * list task :=
  let '(st1, reply, tasks) :=
    match msg with
    | RefereeRegisterRequest request token clock =>
        handle_referee_registration st request token clock
    | PlayerRegisterRequest request token clock =>
        handle_player_registration st request token clock
    | MatchResultReport result => handle_match_result st result
    | OtherMessage _ => (st, HttpError 400, [])
    end in
  (st1,
   match reply with
   | HttpError _ => HttpError 500
   | _ => reply
   end,
   tasks).

(** [start_tournament] up to its only [await]: the result says whether
    [start_round(current_round)] is awaited next. *)
Definition start_tournament (st : state) : state * (exn + bool) :=
  if tournament_started st then (st, inr false)
  else
    let player_ids := Registration.get_all_player_ids (registration_mgr st) in
    let referee_ids := dict_keys (Registration.referees (registration_mgr st)) in
    let '(sched, generated) :=
      Scheduler.generate_schedule (Scheduler.init player_ids referee_ids) in
    let st1 :=
      mkState (registration_mgr st) (standings_mgr st) (Some sched)
        (current_round st) (match_results st) true in
    match generated with
    | inl e => (st1, inl e)
    | inr _ =>
        match Scheduler.validate_schedule sched with
        | inl e => (st1, inl e)
        | inr false => (st1, inr false)
        | inr true =>
            (mkState (registration_mgr st) (standings_mgr st) (Some sched)
               1 (match_results st) true,
             inr true)
        end
    end.

(** The first loop of [start_round]: the matches of a round by referee. *)
Definition group_by_referee (round_matches : list Match.t)
  : pydict (list Match.t) :=
  foldl (λ referee_matches m,
           let referee_matches1 :=
             if decide (Match.referee_id m ∈ dict_keys referee_matches)
             then referee_matches
             else dict_set referee_matches (Match.referee_id m) [] in
           dict_alter (λ l, l ++ [m]) (Match.referee_id m) referee_matches1)
        [] round_matches.

(** The server after a sequence of requests, with the tasks they
    created in the order of creation. *)
Fixpoint serve (st : state) (msgs : list message) : state * list task :=
  match msgs with
  | [] => (st, [])
  | msg :: msgs' =>
      let '(st1, _, tasks) := mcp_endpoint st msg in
      let '(st2, tasks') := serve st1 msgs' in
      (st2, tasks ++ tasks')
  end.

End Server.

(** ** Choices and parity, as the rules word them *)





(** ** The ranked view, in terms of the ledger *)

(** The line of the table that shows a ledger entry at a given rank. *)
Definition line (rank : Z) (entry : string * StandingsData.t)
  : PlayerStanding.t :=
  PlayerStanding.mk rank entry.1
    (StandingsData.display_name entry.2) (StandingsData.played entry.2)
    (StandingsData.wins entry.2) (StandingsData.draws entry.2)
    (StandingsData.losses entry.2) (StandingsData.points entry.2).

(** The entry [e1] may stand above [e2]: more points, or the same points
    and at least as many wins. *)
Definition entry_not_below (e1 e2 : string * StandingsData.t) : Prop :=
  StandingsData.points e2.2 < StandingsData.points e1.2 ∨
  (StandingsData.points e2.2 = StandingsData.points e1.2 ∧
   StandingsData.wins e2.2 ≤ StandingsData.wins e1.2).

(** The ledger entries with the given points and wins. *)
Definition entry_tied (pts w : Z) (e : string * StandingsData.t) : Prop :=
  StandingsData.points e.2 = pts ∧ StandingsData.wins e.2 = w.

Global Instance entry_tied_dec pts w e : Decision (entry_tied pts w e).
Proof. unfold entry_tied. apply _. Defined.

(** ** Requests to the league manager *)

(** The registration attempt that a request carries, if it is one. *)
Definition attempt_of (msg : Server.message) : option Registration.attempt :=
  match msg with
  | Server.RefereeRegisterRequest request token clock =>
      Some (Registration.mkAttempt Registration.Referee request token clock)
  | Server.PlayerRegisterRequest request token clock =>
      Some (Registration.mkAttempt Registration.Player request token clock)
  | _ => None
  end.

Definition attempts_in (msgs : list Server.message)
  : list Registration.attempt :=
  omap attempt_of msgs.


(** The server with the tournament of the four players and two referees
    set up and [round_num] as the current round. *)
Definition in_round (st : Server.state) (round_num : Z) : Server.state :=
  Server.mkState (Server.registration_mgr st) (Server.standings_mgr st)
    (Some (Scheduler.mkScheduler ["P01"; "P02"; "P03"; "P04"]
             ["REF01"; "REF02"]
             (round_robin "P01" "P02" "P03" "P04" "REF01" "REF02")))
    round_num (Server.match_results st) true.

(** Six registrations that fill the roster, with an unknown message and
    an early match report among them. *)
Definition sample_requests : list Server.message :=
  [ Server.RefereeRegisterRequest sample_request "t1" 1;
    Server.PlayerRegisterRequest sample_request "t2" 2;
    Server.OtherMessage "PING";
    Server.PlayerRegisterRequest sample_request "t3" 3;
    Server.MatchResultReport
      (MatchResult.mk "R1" "R1M1" (Some "P01") [("P01", 3); ("P02", 0)] None);
    Server.RefereeRegisterRequest sample_request "t4" 4;
    Server.PlayerRegisterRequest sample_request "t5" 5;
    Server.PlayerRegisterRequest sample_request "t6" 6 ].

(** * Properties *)

Import GameLogic.

(** ** Dictionaries *)

Section dict_facts.
Context {V : Type}.
Implicit Types (d : pydict V) (k : string) (v : V).

Lemma dict_lit_two k1 v1 k2 v2 :
  k1 ≠ k2 → dict_lit [(k1, v1); (k2, v2)] = [(k1, v1); (k2, v2)].
Proof. intros Hne. unfold dict_lit. simpl. by rewrite decide_False. Qed.

Lemma dict_lit_two_same k v1 v2 :
  dict_lit [(k, v1); (k, v2)] = [(k, v2)].
Proof. unfold dict_lit. simpl. by rewrite decide_True. Qed.

Lemma dict_get_set_eq d k v : dict_get (dict_set d k v) k = Some v.
Proof.
  induction d as [|[k' v'] d IH]; simpl.
  - by rewrite decide_True.
  - destruct (decide (k' = k)) as [->|Hne]; simpl.
    + by rewrite decide_True.
    + by rewrite decide_False.
Qed.

Lemma dict_get_set_ne d k k' v :
  k ≠ k' → dict_get (dict_set d k v) k' = dict_get d k'.
Proof.
  intros Hne. induction d as [|[k0 v0] d IH]; simpl.
  - by rewrite decide_False.
  - destruct (decide (k0 = k)) as [->|Hne0]; simpl.
    + by rewrite !decide_False.
    + by rewrite IH.
Qed.

Lemma dict_keys_set_present d k v :
  is_Some (dict_get d k) → dict_keys (dict_set d k v) = dict_keys d.
Proof.
  unfold dict_keys. induction d as [|[k0 v0] d IH]; simpl.
  - by intros [? ?].
  - destruct (decide (k0 = k)) as [->|Hne]; simpl; [done|].
    intros Hs. f_equal. by apply IH.
Qed.

Lemma dict_get_None d k : dict_get d k = None ↔ k ∉ dict_keys d.
Proof.
  unfold dict_keys. induction d as [|[k0 v0] d IH]; simpl.
  - split; [intros _; apply not_elem_of_nil | done].
  - rewrite not_elem_of_cons. destruct (decide (k0 = k)) as [->|Hne].
    + split; [done | by intros [? _]].
    + rewrite IH. intuition.
Qed.
End dict_facts.

(** ** The referee's outcome computation *)

Lemma get_parity_cases n : get_parity n = "odd" ∨ get_parity n = "even".
Proof. unfold get_parity. case_decide; auto. Qed.










(** The three outcomes listed with the rules. *)
Example calculate_odd_odd n :
  let r := calculate_match_result "A" "odd" "B" "odd" n in
  winner_of r = None ∧ score_of r = [("A", 1); ("B", 1)].
Proof. done. Qed.

Example calculate_odd_even_4 :
  let r := calculate_match_result "A" "odd" "B" "even" 4 in
  winner_of r = Some "B" ∧ score_of r = [("A", 0); ("B", 3)].
Proof. done. Qed.

Example calculate_even_odd_7 :
  let r := calculate_match_result "A" "even" "B" "odd" 7 in
  winner_of r = Some "B" ∧ score_of r = [("A", 0); ("B", 3)].
Proof. done. Qed.

(** A choice that is neither parity loses to nothing: the last branch
    gives the match to B. *)
Example calculate_no_parity_chosen :
  let r := calculate_match_result "A" "odd" "B" "maybe" 4 in
  winner_of r = Some "B" ∧ score_of r = [("A", 0); ("B", 3)].
Proof. done. Qed.

(** C2. For distinct player ids: no response from either player gives no
    winner and 0-0; a response from exactly one player makes that player
    the winner, 3 to 0. *)
Theorem handle_player_timeout_rules (A B : string) (ra rb : bool) :
  A ≠ B →
  let r := handle_player_timeout A B ra rb in
  (ra = false → rb = false →
     winner_of r = None ∧ score_of r = [(A, 0); (B, 0)]) ∧
  (ra = true → rb = false →
     winner_of r = Some A ∧ score_of r = [(A, 3); (B, 0)]) ∧
  (ra = false → rb = true →
     winner_of r = Some B ∧ score_of r = [(A, 0); (B, 3)]).
Proof.
  intros Hne r. subst r. unfold handle_player_timeout, winner_of, score_of.
  split; [|split]; intros -> ->; simpl; by rewrite dict_lit_two.
Qed.

Lemma handle_player_timeout_rules_witness :
  let r := handle_player_timeout "P01" "P02" true false in
  (true = false → false = false →
     winner_of r = None ∧ score_of r = [("P01", 0); ("P02", 0)]) ∧
  (true = true → false = false →
     winner_of r = Some "P01" ∧ score_of r = [("P01", 3); ("P02", 0)]) ∧
  (true = false → false = true →
     winner_of r = Some "P02" ∧ score_of r = [("P01", 0); ("P02", 3)]).
Proof.
  apply (handle_player_timeout_rules "P01" "P02" true false). discriminate.
Defined.

(** ** The score map of a match outcome *)

(** C4 as stated fails on a decided match: a win is 3 to 0, so the score
    map adds up to 3, which is none of 6, 2 and 0. *)
Lemma win_score_total_is_not_six :
  let score := score_of (calculate_match_result "P01" "odd" "P02" "even" 4) in
  score = [("P01", 0); ("P02", 3)] ∧
  score_total score = 3 ∧
  ¬ two_keys_with_total [6; 2; 0] score.
Proof.
  simpl. split; [done|]. split; [done|].
  intros [_ Hin]. vm_compute in Hin. set_unfold. lia.
Qed.

(** C4, amended. For distinct player ids, every score map returned by
    [calculate_match_result] or [handle_player_timeout] has exactly the
    two keys A and B, and its values add up to 3 (a win, 3 to 0), 2 (a
    draw, 1 each) or 0 (a double forfeit). *)
Theorem match_outcome_score_shape
    (A cA B cB : string) (n : Z) (ra rb : bool) (score : pydict Z) :
  A ≠ B →
  score = score_of (calculate_match_result A cA B cB n) ∨
  score = score_of (handle_player_timeout A B ra rb) →
  dict_keys score = [A; B] ∧ two_keys_with_total [3; 2; 0] score.
Proof.
  intros Hne [-> | ->];
    unfold calculate_match_result, handle_player_timeout, score_of,
      two_keys_with_total.
  - repeat case_decide; simpl; rewrite dict_lit_two by done;
      (split; [done|]); (split; [done|]); vm_compute; set_unfold; auto.
  - destruct ra, rb; simpl; rewrite dict_lit_two by done;
      (split; [done|]); (split; [done|]); vm_compute; set_unfold; auto.
Qed.

Lemma match_outcome_score_shape_witness :
  dict_keys (score_of (handle_player_timeout "P01" "P02" false true))
    = ["P01"; "P02"] ∧
  two_keys_with_total [3; 2; 0]
    (score_of (handle_player_timeout "P01" "P02" false true)).
Proof.
  apply (match_outcome_score_shape "P01" "odd" "P02" "even" 4 false true);
    [discriminate | right; reflexivity].
Defined.

(** With one id for both players the display has a single key. *)
Example score_map_same_id :
  score_of (handle_player_timeout "P01" "P01" true false) = [("P01", 0)].
Proof. done. Qed.

(** ** Stable sorting *)

Section stable_sort_facts.
Context {A : Type} (before : A → A → bool).

Lemma insert_sorted_perm x l : insert_sorted before x l ≡ₚ x :: l.
Proof.
  induction l as [|y l IH]; simpl; [done|].
  destruct (before x y); [done|].
  rewrite IH. apply Permutation_swap.
Qed.

Lemma stable_sort_perm l : stable_sort before l ≡ₚ l.
Proof.
  induction l as [|x l IH]; simpl; [done|].
  by rewrite insert_sorted_perm, IH.
Qed.

Lemma stable_sort_length l : length (stable_sort before l) = length l.
Proof. by rewrite stable_sort_perm. Qed.

Hypothesis before_total : ∀ x y, before x y = true ∨ before y x = true.
Hypothesis before_trans :
  ∀ x y z, before x y = true → before y z = true → before x z = true.

Lemma insert_sorted_sorted x l :
  StronglySorted (λ a b, before a b) l →
  StronglySorted (λ a b, before a b) (insert_sorted before x l).
Proof.
  induction 1 as [|y l Hl IH Hy]; simpl.
  - repeat constructor.
  - destruct (before x y) eqn:Hxy.
    + constructor; [by constructor|].
      constructor; [by rewrite Hxy|].
      eapply Forall_impl; [exact Hy|].
      intros z Hz. apply Is_true_true. apply Is_true_true in Hz.
      by eapply before_trans.
    + constructor; [done|].
      rewrite insert_sorted_perm. constructor; [|done].
      destruct (before_total x y) as [Hc|Hc]; [congruence|].
      by rewrite Hc.
Qed.

Lemma stable_sort_sorted l :
  StronglySorted (λ a b, before a b) (stable_sort before l).
Proof.
  induction l as [|x l IH]; simpl; [constructor|].
  by apply insert_sorted_sorted.
Qed.

(** Stability: the items of a class whose members are all [before] one
    another come out in the order in which they went in. *)
Section stable.
Context (P : A → Prop) `{!∀ x, Decision (P x)}.
Hypothesis P_class : ∀ x y, P x → P y → before x y = true.

Lemma insert_sorted_filter x l :
  filter P (insert_sorted before x l) = filter P (x :: l).
Proof.
  induction l as [|y l IH]; simpl; [done|].
  destruct (before x y) eqn:Hxy; [done|].
  rewrite (filter_cons _ y), IH, !filter_cons.
  destruct (decide (P x)) as [Hx|Hx], (decide (P y)) as [Hy|Hy];
    try done.
  rewrite P_class in Hxy by done. done.
Qed.

Lemma stable_sort_filter l :
  filter P (stable_sort before l) = filter P l.
Proof.
  induction l as [|x l IH]; simpl; [done|].
  by rewrite insert_sorted_filter, !filter_cons, IH.
Qed.
End stable.
End stable_sort_facts.

(** A sorted permutation that keeps every class of equal keys in input
    order is unique: whatever stable algorithm the interpreter runs, its
    result is the list computed by [stable_sort]. *)
Section stable_unique.
Context {A K : Type} `{!EqDecision K} (before : A → A → bool) (key : A → K).
Hypothesis before_key :
  ∀ x y, before x y = true → before y x = true → key x = key y.

Lemma stable_sorted_unique l1 l2 :
  l1 ≡ₚ l2 →
  StronglySorted (λ a b, before a b) l1 →
  StronglySorted (λ a b, before a b) l2 →
  (∀ k, filter (λ z, key z = k) l1 = filter (λ z, key z = k) l2) →
  l1 = l2.
Proof.
  revert l2. induction l1 as [|x l1 IH]; intros [|y l2] Hp S1 S2 Hf.
  - done.
  - by apply Permutation_nil_cons in Hp.
  - symmetry in Hp. by apply Permutation_nil_cons in Hp.
  - apply StronglySorted_cons in S1 as [Hx S1].
    apply StronglySorted_cons in S2 as [Hy S2].
    assert (x = y) as ->.
    { assert (x ∈ y :: l2) as Hxin by (rewrite <-Hp; left).
      assert (y ∈ x :: l1) as Hyin by (rewrite Hp; left).
      apply elem_of_cons in Hxin as [?|Hxin]; [done|].
      apply elem_of_cons in Hyin as [?|Hyin]; [done|].
      rewrite Forall_forall in Hx, Hy.
      assert (key x = key y) as Hk.
      { apply before_key; apply Is_true_true; auto. }
      specialize (Hf (key x)). rewrite !filter_cons in Hf.
      rewrite decide_True in Hf by done.
      rewrite decide_True in Hf by done. congruence. }
    f_equal. apply IH; [by eapply Permutation_cons_inv | done | done |].
    intros k. specialize (Hf k). rewrite !filter_cons in Hf.
    destruct (decide (key y = k)); congruence.
Qed.
End stable_unique.

(** [sorted] on strings. *)

Lemma leb_total_bool (x y : string) :
  String.leb x y = true ∨ String.leb y x = true.
Proof. apply String.leb_total. Qed.

Lemma leb_trans_bool (x y z : string) :
  String.leb x y = true → String.leb y z = true → String.leb x z = true.
Proof.
  intros Hxy Hyz. apply Is_true_true.
  change (String.le x z). transitivity y; apply Is_true_true; done.
Qed.

Lemma sorted_perm l : sorted l ≡ₚ l.
Proof. apply stable_sort_perm. Qed.

Lemma sorted_strongly_sorted l : StronglySorted String.le (sorted l).
Proof.
  apply (stable_sort_sorted String.leb leb_total_bool leb_trans_bool).
Qed.

(** The result of [sorted] does not depend on the order of the input. *)
Lemma sorted_of_perm l1 l2 : l1 ≡ₚ l2 → sorted l1 = sorted l2.
Proof.
  intros Hp. apply (StronglySorted_unique String.le);
    [apply sorted_strongly_sorted..|].
  by rewrite !sorted_perm.
Qed.

Lemma sorted_length l : length (sorted l) = length l.
Proof. apply stable_sort_length. Qed.

(** Any sorted rearrangement of a list of strings is [sorted] of it. *)
Lemma sorted_unique l l' :
  l' ≡ₚ l → StronglySorted String.le l' → l' = sorted l.
Proof.
  intros Hp Hs. apply (StronglySorted_unique String.le);
    [done | apply sorted_strongly_sorted |].
  by rewrite sorted_perm.
Qed.

(** ** The scheduler *)

Import Scheduler.

Lemma generate_schedule_four self a b c d r1 r2 :
  player_ids self = [a; b; c; d] →
  referee_ids self = [r1; r2] →
  generate_schedule self
  = (set_schedule self (round_robin a b c d r1 r2),
     inr (round_robin a b c d r1 r2)).
Proof.
  destruct self as [ps rs sch]. simpl. intros -> ->. vm_compute. reflexivity.
Qed.

Lemma list_of_length_4 {A} (l : list A) :
  length l = 4%nat → ∃ a b c d, l = [a; b; c; d].
Proof.
  destruct l as [|a [|b [|c [|d [|e l]]]]]; try done. intros _. eauto.
Qed.

Lemma list_of_length_2 {A} (l : list A) :
  length l = 2%nat → ∃ a b, l = [a; b].
Proof. destruct l as [|a [|b [|c l]]]; try done. intros _. eauto. Qed.

Lemma NoDup_4 {A} (a b c d : A) :
  NoDup [a; b; c; d] →
  a ≠ b ∧ a ≠ c ∧ a ≠ d ∧ b ≠ c ∧ b ≠ d ∧ c ≠ d.
Proof.
  rewrite !NoDup_cons, !not_elem_of_cons. intuition.
Qed.

Lemma elem_of_4 {A} (x a b c d : A) :
  x ∈ [a; b; c; d] ↔ x = a ∨ x = b ∨ x = c ∨ x = d.
Proof. set_unfold. tauto. Qed.

(** The sorted ids of four distinct players. *)
Lemma sorted_four players :
  NoDup players → length players = 4%nat →
  ∃ a b c d, sorted players = [a; b; c; d] ∧
    (a ≠ b ∧ a ≠ c ∧ a ≠ d ∧ b ≠ c ∧ b ≠ d ∧ c ≠ d) ∧
    (∀ x, x ∈ players ↔ x = a ∨ x = b ∨ x = c ∨ x = d).
Proof.
  intros Hnd Hlen.
  destruct (list_of_length_4 (sorted players)) as (a & b & c & d & Hs).
  { by rewrite sorted_length. }
  exists a, b, c, d. split; [done|]. split.
  - apply NoDup_4. by rewrite <-Hs, sorted_perm.
  - intros x. rewrite <-(sorted_perm players), Hs. set_unfold. tauto.
Qed.

Ltac count_matches_by tac :=
  repeat (rewrite filter_cons;
          first [ rewrite decide_True by tac | rewrite decide_False by tac ]);
  rewrite ?filter_nil.

Ltac decide_by_ids := unfold meets, takes_part; simpl; intuition congruence.

(** The written-out schedule is a round robin of its four players. *)
Section round_robin_facts.
Context (a b c d r1 r2 : string).
Hypothesis distinct : a ≠ b ∧ a ≠ c ∧ a ≠ d ∧ b ≠ c ∧ b ≠ d ∧ c ≠ d.

Let matches := concat (round_robin a b c d r1 r2).

Lemma round_robin_players m :
  m ∈ matches →
  Match.player_A_id m ∈ [a; b; c; d] ∧
  Match.player_B_id m ∈ [a; b; c; d] ∧
  Match.player_A_id m ≠ Match.player_B_id m.
Proof.
  subst matches. simpl. rewrite !elem_of_4. set_unfold.
  intros [->|[->|[->|[->|[->|[->|[]]]]]]]; simpl; intuition congruence.
Qed.

Lemma round_robin_meets_once x y :
  x ∈ [a; b; c; d] → y ∈ [a; b; c; d] → x ≠ y →
  length (filter (meets x y) matches) = 1%nat.
Proof.
  subst matches. simpl.
  intros [->|[->|[->| ->]]]%elem_of_4 [->|[->|[->| ->]]]%elem_of_4 Hxy;
    try done; by count_matches_by decide_by_ids.
Qed.

Lemma round_robin_meets_outside x y :
  ¬ (x ∈ [a; b; c; d] ∧ y ∈ [a; b; c; d] ∧ x ≠ y) →
  filter (meets x y) matches = [].
Proof.
  intros Hout. destruct (filter (meets x y) matches) as [|m l] eqn:Hf; [done|].
  assert (m ∈ filter (meets x y) matches) as Hm by (rewrite Hf; left).
  apply list_elem_of_filter in Hm as [Hmeets Hm].
  apply round_robin_players in Hm as (HA & HB & Hne).
  exfalso. apply Hout. unfold meets in Hmeets.
  destruct Hmeets as [[<- <-]|[<- <-]]; auto.
Qed.

Lemma round_robin_takes_part x :
  x ∈ [a; b; c; d] → length (filter (takes_part x) matches) = 3%nat.
Proof.
  subst matches. simpl.
  intros [->|[->|[->| ->]]]%elem_of_4; by count_matches_by decide_by_ids.
Qed.

Lemma round_robin_appearances x :
  x ∈ [a; b; c; d] → appearances x matches = 3.
Proof.
  pose proof distinct as (? & ? & ? & ? & ? & ?).
  subst matches. simpl.
  intros [->|[->|[->| ->]]]%elem_of_4;
    repeat first [ rewrite decide_True by congruence
                 | rewrite decide_False by congruence ];
    reflexivity.
Qed.

Lemma round_robin_no_repeat : ¬ repeated_pairing matches.
Proof.
  intros (x & y & Hlt).
  destruct (decide (x ∈ [a; b; c; d] ∧ y ∈ [a; b; c; d] ∧ x ≠ y))
    as [(Hx & Hy & Hxy)|Hout].
  - rewrite round_robin_meets_once in Hlt by done. lia.
  - rewrite round_robin_meets_outside in Hlt by done. simpl in Hlt. lia.
Qed.
End round_robin_facts.

(** C3. For four distinct player ids and two referee ids,
    [generate_schedule] returns (and stores) three rounds of two
    matches; each match is between two different players of the four;
    every two different players meet in exactly one of the six matches;
    and every player takes part in exactly three of them. *)
Theorem generate_schedule_round_robin (players referees : list string) :
  NoDup players →
  length players = 4%nat →
  length referees = 2%nat →
  ∃ sched,
    generate_schedule (init players referees)
      = (set_schedule (init players referees) sched, inr sched) ∧
    length sched = 3%nat ∧
    Forall (λ round, length round = 2%nat) sched ∧
    Forall (λ m, Match.player_A_id m ∈ players ∧
                 Match.player_B_id m ∈ players ∧
                 Match.player_A_id m ≠ Match.player_B_id m) (concat sched) ∧
    (∀ x y, x ∈ players → y ∈ players → x ≠ y →
       length (filter (meets x y) (concat sched)) = 1%nat) ∧
    (∀ x, x ∈ players →
       length (filter (takes_part x) (concat sched)) = 3%nat).
Proof.
  intros Hnd Hlen Hrefs.
  destruct (sorted_four players Hnd Hlen)
    as (a & b & c & d & Hs & Hdistinct & Hin).
  destruct (list_of_length_2 (sorted referees)) as (r1 & r2 & Hr).
  { by rewrite sorted_length. }
  assert (∀ x, x ∈ players ↔ x ∈ [a; b; c; d]) as Hin'.
  { intros x. by rewrite Hin, elem_of_4. }
  exists (round_robin a b c d r1 r2).
  split; [by apply generate_schedule_four|].
  split; [done|]. split; [by repeat constructor|].
  split; [|split].
  - apply Forall_forall. intros m Hm. rewrite !Hin'.
    by apply (round_robin_players a b c d r1 r2).
  - intros x y Hx%Hin' Hy%Hin' Hxy. by apply round_robin_meets_once.
  - intros x Hx%Hin'. by apply round_robin_takes_part.
Qed.

Lemma generate_schedule_round_robin_witness :
  ∃ sched,
    generate_schedule (init ["P03"; "P01"; "P04"; "P02"] ["REF02"; "REF01"])
      = (set_schedule (init ["P03"; "P01"; "P04"; "P02"] ["REF02"; "REF01"])
           sched, inr sched) ∧
    length sched = 3%nat ∧
    Forall (λ round, length round = 2%nat) sched ∧
    Forall (λ m, Match.player_A_id m ∈ ["P03"; "P01"; "P04"; "P02"] ∧
                 Match.player_B_id m ∈ ["P03"; "P01"; "P04"; "P02"] ∧
                 Match.player_A_id m ≠ Match.player_B_id m) (concat sched) ∧
    (∀ x y, x ∈ ["P03"; "P01"; "P04"; "P02"] →
       y ∈ ["P03"; "P01"; "P04"; "P02"] → x ≠ y →
       length (filter (meets x y) (concat sched)) = 1%nat) ∧
    (∀ x, x ∈ ["P03"; "P01"; "P04"; "P02"] →
       length (filter (takes_part x) (concat sched)) = 3%nat).
Proof.
  apply (generate_schedule_round_robin
           ["P03"; "P01"; "P04"; "P02"] ["REF02"; "REF01"]);
    [apply (bool_decide_unpack _); vm_compute; exact I
    | reflexivity | reflexivity].
Defined.

Example generate_schedule_ex :
  (generate_schedule (init ["P03"; "P01"; "P04"; "P02"] ["REF02"; "REF01"])).2
  = inr (round_robin "P01" "P02" "P03" "P04" "REF01" "REF02").
Proof. vm_compute. reflexivity. Qed.

(** C9. Reordering the two id lists does not change the schedule: for
    four player ids and two referee ids, [generate_schedule] on the
    reordered lists starts from the same scheduler (both lists are
    sorted by [__init__]) and returns the same rounds, with the same
    match ids, players and referees. *)
Theorem generate_schedule_order_independent
    (players players' referees referees' : list string) :
  players ≡ₚ players' →
  referees ≡ₚ referees' →
  length players = 4%nat →
  length referees = 2%nat →
  init players referees = init players' referees' ∧
  ∃ sched,
    (generate_schedule (init players referees)).2 = inr sched ∧
    (generate_schedule (init players' referees')).2 = inr sched ∧
    schedule (generate_schedule (init players referees)).1 = sched ∧
    schedule (generate_schedule (init players' referees')).1 = sched.
Proof.
  intros Hp Hr Hlen Hrefs.
  assert (init players referees = init players' referees') as Hinit.
  { unfold init. by rewrite (sorted_of_perm _ _ Hp), (sorted_of_perm _ _ Hr). }
  split; [done|]. rewrite <-Hinit.
  destruct (list_of_length_4 (sorted players)) as (a & b & c & d & Hs).
  { by rewrite sorted_length. }
  destruct (list_of_length_2 (sorted referees)) as (r1 & r2 & Hs').
  { by rewrite sorted_length. }
  exists (round_robin a b c d r1 r2).
  by rewrite (generate_schedule_four _ a b c d r1 r2).
Qed.

Lemma generate_schedule_order_independent_witness :
  init ["P01"; "P02"; "P03"; "P04"] ["REF01"; "REF02"]
    = init ["P04"; "P02"; "P01"; "P03"] ["REF02"; "REF01"] ∧
  ∃ sched,
    (generate_schedule
       (init ["P01"; "P02"; "P03"; "P04"] ["REF01"; "REF02"])).2 = inr sched ∧
    (generate_schedule
       (init ["P04"; "P02"; "P01"; "P03"] ["REF02"; "REF01"])).2 = inr sched ∧
    schedule (generate_schedule
       (init ["P01"; "P02"; "P03"; "P04"] ["REF01"; "REF02"])).1 = sched ∧
    schedule (generate_schedule
       (init ["P04"; "P02"; "P01"; "P03"] ["REF02"; "REF01"])).1 = sched.
Proof.
  apply (generate_schedule_order_independent
           ["P01"; "P02"; "P03"; "P04"] ["P04"; "P02"; "P01"; "P03"]
           ["REF01"; "REF02"] ["REF02"; "REF01"]);
    [apply (bool_decide_unpack _); vm_compute; exact I
    | apply (bool_decide_unpack _); vm_compute; exact I
    | reflexivity | reflexivity].
Defined.

(** ** Validation of a schedule *)

Lemma zero_counts_lookup (ids : list string) (m : gmap string Z) x :
  foldl (λ d pid, <[pid := 0]> d) m ids !! x
  = if decide (x ∈ ids) then Some 0 else m !! x.
Proof.
  revert m. induction ids as [|p ids IH]; intros m; simpl.
  - done.
  - rewrite IH. destruct (decide (x ∈ ids)) as [Hin|Hin].
    + by rewrite decide_True by (by right).
    + destruct (decide (p = x)) as [->|Hne].
      * rewrite lookup_insert_eq. by rewrite decide_True by left.
      * rewrite lookup_insert_ne by done.
        rewrite decide_False; [done|]. rewrite elem_of_cons.
        intros [?|?]; congruence.
Qed.

Lemma incr_count_known (counts : gmap string Z) pid c :
  counts !! pid = Some c →
  incr_count counts pid = inr (<[pid := c + 1]> counts).
Proof. unfold incr_count. by intros ->. Qed.

(** When every player named by the matches has a counter, the counting
    loop finishes and adds to each counter the appearances of its
    player. *)
Lemma count_matches_known matches : ∀ counts : gmap string Z,
  Forall (λ m, is_Some (counts !! Match.player_A_id m) ∧
               is_Some (counts !! Match.player_B_id m)) matches →
  ∃ counts',
    count_matches counts matches = inr counts' ∧
    ∀ x, counts' !! x = (λ c, c + appearances x matches) <$> counts !! x.
Proof.
  induction matches as [|m matches IH]; intros counts Hknown.
  - exists counts. split; [done|]. intros x. simpl.
    destruct (counts !! x); simpl; [f_equal; lia | done].
  - apply Forall_cons in Hknown as [[[cA HA] [cB HB]] Hknown].
    simpl. rewrite (incr_count_known _ _ _ HA). simpl.
    assert (∃ cB', <[Match.player_A_id m := cA + 1]> counts
                     !! Match.player_B_id m = Some cB' ∧
                   cB' = cB + (if decide (Match.player_A_id m
                                          = Match.player_B_id m)
                               then 1 else 0))
      as (cB' & HB' & HcB').
    { destruct (decide (Match.player_A_id m = Match.player_B_id m)) as [e|n].
      - rewrite e, lookup_insert_eq. exists (cA + 1). split; [done|].
        rewrite e in HA. simplify_eq. done.
      - rewrite lookup_insert_ne by done. exists cB. split; [done | lia]. }
    rewrite (incr_count_known _ _ _ HB'). simpl.
    destruct (IH (<[Match.player_B_id m := cB' + 1]>
                    (<[Match.player_A_id m := cA + 1]> counts)))
      as (counts' & Hrun & Hlook).
    { eapply Forall_impl; [exact Hknown|]. intros m' [H1 H2].
      rewrite !lookup_insert_is_Some'. auto. }
    exists counts'. split; [done|]. intros x. rewrite Hlook.
    destruct (decide (Match.player_B_id m = x)) as [eB|nB].
    + rewrite eB, lookup_insert_eq. simpl.
      destruct (decide (Match.player_A_id m = x)) as [eA|nA].
      * rewrite eA in HA. rewrite HA. simpl. f_equal.
        rewrite decide_True in HcB' by congruence.
        rewrite eA, eB in HB'. rewrite lookup_insert_eq in HB'.
        rewrite eB in HB. simplify_eq. lia.
      * rewrite eB in HB. rewrite HB. simpl. f_equal.
        rewrite decide_False in HcB' by congruence. lia.
    + rewrite lookup_insert_ne by done.
      destruct (decide (Match.player_A_id m = x)) as [eA|nA].
      * rewrite eA, lookup_insert_eq. rewrite eA in HA. rewrite HA.
        simpl. f_equal. lia.
      * rewrite lookup_insert_ne by done.
        destruct (counts !! x); simpl; [f_equal; lia | done].
Qed.

Lemma all_counts_three (counts : gmap string Z) :
  forallb (λ count, bool_decide (count = 3)) (map_to_list counts).*2 = true
  ↔ ∀ x c, counts !! x = Some c → c = 3.
Proof.
  rewrite <-Is_true_true, forallb_True, Forall_fmap, Forall_forall.
  split.
  - intros Hall x c Hx. apply elem_of_map_to_list in Hx.
    apply Hall in Hx. simpl in Hx. by apply bool_decide_unpack in Hx.
  - intros Hall [x c] Hx%elem_of_map_to_list. simpl.
    apply bool_decide_pack. eauto.
Qed.

(** [tuple(sorted([a, b]))] names the unordered pair. *)
Lemma sorted_two a b : sorted [a; b] = [a; b] ∨ sorted [a; b] = [b; a].
Proof. unfold sorted. simpl. destruct (String.leb a b); auto. Qed.

Lemma pairing_of_eq m1 m2 :
  pairing_of m1 = pairing_of m2
  ↔ meets (Match.player_A_id m1) (Match.player_B_id m1) m2.
Proof.
  unfold pairing_of, meets. split.
  - intros Heq.
    destruct (sorted_two (Match.player_A_id m1) (Match.player_B_id m1))
      as [H1|H1],
      (sorted_two (Match.player_A_id m2) (Match.player_B_id m2))
      as [H2|H2]; rewrite H1, H2 in Heq; simplify_eq; auto.
  - intros [[-> ->]|[-> ->]]; [done|].
    apply sorted_of_perm, Permutation_swap.
Qed.

Lemma meets_sym x y m : meets x y m ↔ meets y x m.
Proof. unfold meets. tauto. Qed.

Lemma meets_self m : meets (Match.player_A_id m) (Match.player_B_id m) m.
Proof. unfold meets. auto. Qed.

(** Two pairs met by one match are met by the same matches. *)
Lemma meets_same x y x' y' m m' :
  meets x y m → meets x' y' m → meets x y m' → meets x' y' m'.
Proof. unfold meets. intuition congruence. Qed.

Lemma filter_length_pos {A} (P : A → Prop) `{!∀ x, Decision (P x)} l x :
  x ∈ l → P x → (0 < length (filter P l))%nat.
Proof.
  intros Hin HP.
  assert (x ∈ filter P l) as Hx by (by apply list_elem_of_filter).
  destruct (filter P l); [by apply elem_of_nil in Hx | simpl; lia].
Qed.

(** The duplicate check passes exactly when no pairing is in the set
    already and no unordered pair is met twice. *)
Lemma check_pairings_true matches : ∀ seen : gset (list string),
  check_pairings seen matches = true
  ↔ (∀ m, m ∈ matches → pairing_of m ∉ seen) ∧ ¬ repeated_pairing matches.
Proof.
  unfold repeated_pairing.
  induction matches as [|m matches IH]; intros seen; simpl.
  - split; [|done]. intros _. split.
    + intros m Hm. by apply elem_of_nil in Hm.
    + intros (x & y & Hlt). simpl in Hlt. lia.
  - destruct (decide (pairing_of m ∈ seen)) as [Hin|Hnin].
    + split; [done|]. intros [Hfresh _]. exfalso.
      apply (Hfresh m); [left | done].
    + rewrite IH. split.
      * intros [Hfresh Hno]. split.
        -- intros m' [->|Hm']%elem_of_cons; [done|].
           intros Hseen. apply (Hfresh m' Hm'). by apply elem_of_union_l.
        -- intros (x & y & Hlt). rewrite filter_cons in Hlt.
           destruct (decide (meets x y m)) as [Hm|Hm].
           ++ simpl in Hlt.
              destruct (filter (meets x y) matches) as [|m' l] eqn:Hf;
                [simpl in Hlt; lia|].
              assert (m' ∈ filter (meets x y) matches) as Hm'
                by (rewrite Hf; left).
              apply list_elem_of_filter in Hm' as [Hmeet Hm'].
              apply (Hfresh m' Hm'). apply elem_of_union_r.
              apply elem_of_singleton. symmetry. apply pairing_of_eq.
              eapply meets_same; [exact Hm | apply meets_self | exact Hmeet].
           ++ apply Hno. eauto.
      * intros [Hfresh Hno]. split.
        -- intros m' Hm'. rewrite elem_of_union, elem_of_singleton.
           intros [Hseen|Heq].
           ++ apply (Hfresh m'); [by right | done].
           ++ apply Hno.
              exists (Match.player_A_id m), (Match.player_B_id m).
              rewrite filter_cons, decide_True by apply meets_self. simpl.
              apply ->Nat.succ_lt_mono.
              eapply filter_length_pos; [exact Hm'|].
              apply pairing_of_eq. done.
        -- intros (x & y & Hlt). apply Hno. exists x, y.
           rewrite filter_cons. destruct (decide (meets x y m)); simpl; lia.
Qed.

(** On a schedule that names known players only, [validate_schedule]
    returns, and returns [True] exactly when every player has three
    appearances and no unordered pair is met twice. *)
Lemma validate_schedule_known self :
  known_players self →
  ∃ ok : bool,
    validate_schedule self = inr ok ∧
    (ok = true ↔
       (∀ x, x ∈ player_ids self →
          appearances x (concat (schedule self)) = 3) ∧
       ¬ repeated_pairing (concat (schedule self))).
Proof.
  intros Hknown. unfold validate_schedule.
  set (counts0 := foldl (λ d pid, <[pid := 0]> d) ∅ (player_ids self)).
  destruct (count_matches_known (concat (schedule self)) counts0)
    as (counts & Hrun & Hlook).
  { eapply Forall_impl; [exact Hknown|]. intros m [HA HB]. subst counts0.
    rewrite !zero_counts_lookup, !decide_True by done. eauto. }
  rewrite Hrun. simpl.
  assert (forallb (λ count, bool_decide (count = 3)) (map_to_list counts).*2
          = true
          ↔ ∀ x, x ∈ player_ids self →
              appearances x (concat (schedule self)) = 3) as Hall.
  { rewrite all_counts_three. split.
    - intros Hall x Hx. specialize (Hall x (0 + appearances x (concat (schedule self)))).
      rewrite Z.add_0_l in Hall. apply Hall. rewrite Hlook. subst counts0.
      by rewrite zero_counts_lookup, decide_True by done.
    - intros Hall x c. rewrite Hlook. subst counts0.
      rewrite zero_counts_lookup. destruct (decide (x ∈ player_ids self)).
      + simpl. intros [= <-]. rewrite Z.add_0_l. by apply Hall.
      + by rewrite lookup_empty. }
  destruct (forallb _ _) eqn:Hforall; simpl.
  - exists (check_pairings ∅ (concat (schedule self))). split; [done|].
    rewrite check_pairings_true. split.
    + intros [_ Hno]. split; [by apply Hall | done].
    + intros [_ Hno]. split; [|done]. intros m _. apply not_elem_of_empty.
  - exists false. split; [done|]. split; [done|].
    intros [Hthree _]. apply Hall in Hthree. congruence.
Qed.

(** C8 as stated fails on a schedule that names a player without a
    counter: P04 has two appearances, yet the validation stops with
    [KeyError] instead of returning [False]. *)
Lemma validate_schedule_unknown_player_raises :
  let self :=
    mkScheduler ["P01"; "P02"; "P03"; "P04"] ["REF01"; "REF02"]
      (round_robin "P01" "P02" "P03" "P05" "REF01" "REF02") in
  (repeated_pairing (concat (schedule self)) ∨
   ∃ x, x ∈ player_ids self ∧ appearances x (concat (schedule self)) ≠ 3) ∧
  validate_schedule self = inl (KeyError "P05") ∧
  validate_schedule self ≠ inr false.
Proof.
  simpl. split; [|split].
  - right. exists "P04". split; [set_unfold; tauto|]. vm_compute. discriminate.
  - vm_compute. reflexivity.
  - vm_compute. discriminate.
Qed.

(** C8, amended. For a scheduler whose schedule names only players of
    its [player_ids], [validate_schedule] returns [False] if some
    unordered pair of players is the pairing of more than one match or
    some player's number of appearances (one for each side of a match) is
    not 3, and [True] otherwise; and it returns [True] on the schedule
    that [generate_schedule] stores for four distinct players and two
    referees. *)
Theorem validate_schedule_checks :
  (∀ self,
     known_players self →
     (repeated_pairing (concat (schedule self)) ∨
      (∃ x, x ∈ player_ids self ∧
            appearances x (concat (schedule self)) ≠ 3) →
      validate_schedule self = inr false) ∧
     (¬ repeated_pairing (concat (schedule self)) →
      (∀ x, x ∈ player_ids self →
            appearances x (concat (schedule self)) = 3) →
      validate_schedule self = inr true)) ∧
  (∀ players referees,
     NoDup players →
     length players = 4%nat →
     length referees = 2%nat →
     validate_schedule (generate_schedule (init players referees)).1
     = inr true).
Proof.
  split.
  - intros self Hknown.
    destruct (validate_schedule_known self Hknown) as (ok & -> & Hok).
    split.
    + intros Hbad. f_equal. destruct ok; [|done]. exfalso.
      destruct Hok as [Hok _]. destruct (Hok eq_refl) as [Hthree Hno].
      destruct Hbad as [Hrep|(x & Hx & Hne)]; [done|]. by apply Hne, Hthree.
    + intros Hno Hthree. f_equal. by apply Hok.
  - intros players referees Hnd Hlen Hrefs.
    destruct (sorted_four players Hnd Hlen)
      as (a & b & c & d & Hs & Hdistinct & Hin).
    destruct (list_of_length_2 (sorted referees)) as (r1 & r2 & Hr).
    { by rewrite sorted_length. }
    rewrite (generate_schedule_four _ a b c d r1 r2) by done. simpl.
    set (self := set_schedule _ _).
    assert (player_ids self = [a; b; c; d]) as Hids by done.
    assert (schedule self = round_robin a b c d r1 r2) as Hsched by done.
    destruct (validate_schedule_known self) as (ok & -> & Hok).
    { unfold known_players. rewrite Hids, Hsched. apply Forall_forall.
      intros m Hm.
      by destruct (round_robin_players a b c d r1 r2 Hdistinct m Hm)
        as (? & ? & _). }
    f_equal. apply Hok. rewrite Hids, Hsched. split.
    + intros x Hx. by apply round_robin_appearances.
    + by apply round_robin_no_repeat.
Qed.

Lemma validate_schedule_checks_witness :
  validate_schedule
    (mkScheduler ["P01"; "P02"; "P03"; "P04"] ["REF01"; "REF02"]
       (round_robin "P01" "P02" "P03" "P03" "REF01" "REF02")) = inr false ∧
  validate_schedule
    (generate_schedule
       (init ["P02"; "P01"; "P04"; "P03"] ["REF01"; "REF02"])).1 = inr true.
Proof.
  destruct validate_schedule_checks as [Hchecks Hgenerated]. split.
  - apply Hchecks.
    + apply (bool_decide_unpack _). vm_compute. exact I.
    + right. exists "P04". split; [set_unfold; tauto|].
      vm_compute. discriminate.
  - apply Hgenerated; [|reflexivity..].
    apply (bool_decide_unpack _). vm_compute. exact I.
Defined.

(** Counting once for each side lets a player who is paired with
    themself reach three appearances in two matches. *)
Example validate_schedule_self_match :
  validate_schedule
    (mkScheduler ["P01"; "P02"] ["REF01"]
       [[Match.mk "R1M1" "even_odd" "P01" "P01" "REF01";
         Match.mk "R1M2" "even_odd" "P01" "P02" "REF01";
         Match.mk "R1M3" "even_odd" "P02" "P02" "REF01"]]) = inr true.
Proof. vm_compute. reflexivity. Qed.

(** ** The standings ledger *)

Import Standings.

(** A score map without exactly two keys: nothing is touched. *)
Lemma update_from_result_wrong_keys result self :
  length (dict_keys (MatchResult.score result)) ≠ 2%nat →
  update_from_result result self = (self, inr ()).
Proof.
  unfold update_from_result.
  destruct (dict_keys (MatchResult.score result)) as [|a [|b [|c l]]];
    simpl; done.
Qed.

(** C5. A result whose winner is neither key of the score map: the two
    [played] counters have been incremented by the time the winner is
    looked at, so the ledger does change (and no exception is raised). *)
Theorem update_from_result_unknown_winner_counts_played :
  let self := initialize_player (initialize_player init "P01" "Ann") "P02" "Bob" in
  let result :=
    MatchResult.mk "R1" "R1M1" (Some "P03") [("P01", 3); ("P02", 0)] None in
  self = mkManager [("P01", StandingsData.mk 0 0 0 0 0 "Ann");
                    ("P02", StandingsData.mk 0 0 0 0 0 "Bob")] ∧
  update_from_result result self
  = (mkManager [("P01", StandingsData.mk 1 0 0 0 0 "Ann");
                ("P02", StandingsData.mk 1 0 0 0 0 "Bob")], inr ()) ∧
  (update_from_result result self).1 ≠ self.
Proof. simpl. split; [done|]. split; [done|]. vm_compute. discriminate. Qed.

(** C10. A score map with exactly two keys, one of which has no entry in
    the ledger: the call raises [KeyError] at a [played] increment.  If
    the first key is the missing one nothing has changed; otherwise the
    first player's [played] has been incremented already. *)
Theorem update_from_result_unknown_player_raises
    (self : StandingsManager) (result : MatchResult.t) (a b : string) :
  dict_keys (MatchResult.score result) = [a; b] →
  a ∉ dict_keys (standings self) ∨ b ∉ dict_keys (standings self) →
  match dict_get (standings self) a with
  | None => update_from_result result self = (self, inl (KeyError a))
  | Some data =>
      update_from_result result self
      = (mkManager (dict_set (standings self) a (add_played 1 data)),
         inl (KeyError b))
  end.
Proof.
  intros Hkeys Hmissing. unfold update_from_result. rewrite Hkeys.
  destruct (dict_get (standings self) a) as [data|] eqn:Ha.
  - destruct Hmissing as [Hna|Hnb].
    { apply dict_get_None in Hna. congruence. }
    assert (a ≠ b) as Hab.
    { intros ->. apply dict_get_None in Hnb. congruence. }
    unfold seq at 1. unfold update_entry at 1. rewrite Ha.
    unfold seq at 1. unfold update_entry at 1. simpl.
    rewrite dict_get_set_ne by done.
    apply dict_get_None in Hnb. by rewrite Hnb.
  - unfold seq at 1. unfold update_entry at 1. by rewrite Ha.
Qed.

Lemma update_from_result_unknown_player_raises_witness :
  update_from_result
    (MatchResult.mk "R1" "R1M1" (Some "P01") [("P01", 3); ("P09", 0)] None)
    (initialize_player init "P01" "Ann")
  = (mkManager [("P01", StandingsData.mk 1 0 0 0 0 "Ann")],
     inl (KeyError "P09")).
Proof.
  apply (update_from_result_unknown_player_raises
           (initialize_player init "P01" "Ann")
           (MatchResult.mk "R1" "R1M1" (Some "P01")
              [("P01", 3); ("P09", 0)] None)
           "P01" "P09");
    [reflexivity | right; vm_compute; set_unfold; intuition discriminate].
Defined.

(** *** The ranked view *)

Lemma tuple_le_spec a b :
  tuple_le a b = true ↔ a.1 < b.1 ∨ (a.1 = b.1 ∧ a.2 ≤ b.2).
Proof.
  unfold tuple_le.
  rewrite orb_true_iff, andb_true_iff, !bool_decide_eq_true. tauto.
Qed.

Lemma key_order_total (x y : row) :
  tuple_le (sort_key y) (sort_key x) = true ∨
  tuple_le (sort_key x) (sort_key y) = true.
Proof. rewrite !tuple_le_spec. lia. Qed.

Lemma key_order_trans (x y z : row) :
  tuple_le (sort_key y) (sort_key x) = true →
  tuple_le (sort_key z) (sort_key y) = true →
  tuple_le (sort_key z) (sort_key x) = true.
Proof. rewrite !tuple_le_spec. lia. Qed.

Lemma enumerate_from_snd {A} (l : list A) k : (enumerate_from k l).*2 = l.
Proof.
  revert k. induction l as [|x l IH]; intros k; simpl; [done|].
  by rewrite IH.
Qed.

Lemma enumerate_from_fst {A} (l : list A) k :
  (enumerate_from k l).*1 = seqZ k (Z.of_nat (length l)).
Proof.
  revert k. induction l as [|x l IH]; intros k; simpl length; [done|].
  rewrite seqZ_cons by lia. simpl. rewrite IH. do 2 f_equal; lia.
Qed.

Lemma StronglySorted_fmap_inv {A B} (f : A → B)
    (R1 : relation A) (R2 : relation B) l :
  (∀ x y, R2 (f x) (f y) → R1 x y) →
  StronglySorted R2 (f <$> l) → StronglySorted R1 l.
Proof.
  intros HR. induction l as [|x l IH]; [constructor|].
  rewrite fmap_cons, !StronglySorted_cons, Forall_fmap.
  intros [Hx Hl]. split; [|by apply IH].
  eapply Forall_impl; [exact Hx|]. intros y Hy. by apply HR.
Qed.

(** Any descending, tie-preserving rearrangement of the entries is the
    one [sort_reverse] computes. *)
Lemma sort_reverse_unique (entries l : list row) :
  l ≡ₚ entries →
  StronglySorted (λ x y : row, tuple_le (sort_key y) (sort_key x)) l →
  (∀ pts w, filter (tied pts w) l = filter (tied pts w) entries) →
  l = sort_reverse entries.
Proof.
  intros Hp Hs Hstable.
  apply (stable_sorted_unique
           (λ x y : row, tuple_le (sort_key y) (sort_key x)) sort_key).
  - intros x y H1%tuple_le_spec H2%tuple_le_spec.
    unfold sort_key in *. simpl in *. f_equal; lia.
  - unfold sort_reverse. by rewrite stable_sort_perm.
  - done.
  - apply (stable_sort_sorted _ key_order_total key_order_trans).
  - intros [pts w].
    transitivity (filter (tied pts w) l).
    { apply list_filter_iff. intros r. unfold tied, sort_key.
      split; [intros [= -> ->]; done | intros [-> ->]; done]. }
    rewrite Hstable. symmetry.
    transitivity (filter (tied pts w) (sort_reverse entries)).
    { apply list_filter_iff. intros r. unfold tied, sort_key.
      split; [intros [= -> ->]; done | intros [-> ->]; done]. }
    apply stable_sort_filter.
    intros x y [Hx1 Hx2] [Hy1 Hy2]. apply tuple_le_spec.
    unfold sort_key. simpl. lia.
Qed.

(** Sorting the rows is sorting the ledger entries they were made from. *)
Lemma insert_sorted_fmap {A B} (f : A → B) (before : B → B → bool) x l :
  insert_sorted before (f x) (f <$> l)
  = f <$> insert_sorted (λ a b, before (f a) (f b)) x l.
Proof.
  induction l as [|y l IH]; [done|].
  rewrite fmap_cons. cbn [insert_sorted].
  destruct (before (f x) (f y)); [done|]. by rewrite IH.
Qed.

Lemma stable_sort_fmap {A B} (f : A → B) (before : B → B → bool) l :
  stable_sort before (f <$> l)
  = f <$> stable_sort (λ a b, before (f a) (f b)) l.
Proof.
  induction l as [|x l IH]; [done|].
  rewrite fmap_cons. cbn [stable_sort].
  by rewrite IH, insert_sorted_fmap.
Qed.

Lemma ranked_rows_lines (order : list (string * StandingsData.t)) k :
  ranked <$> enumerate_from k (row_of <$> order)
  = zip_with line (seqZ k (Z.of_nat (length order))) order.
Proof.
  revert k. induction order as [|[pid d] order IH]; intros k; [done|].
  simpl length. rewrite seqZ_cons by lia. simpl. f_equal.
  rewrite IH. do 2 f_equal; lia.
Qed.

(** C7. [get_sorted_standings] returns one line for every entry of the
    ledger, carrying the entry's id, name and counters: the lines follow
    a rearrangement of the ledger in which an earlier entry has more
    points than a later one, or the same points and at least as many
    wins; the entries that tie on points and wins keep the order in
    which they were inserted in the ledger; and the ranks are 1, 2, ...,
    N down the list, ties included. *)
Theorem get_sorted_standings_ranking (self : StandingsManager) :
  ∃ order : list (string * StandingsData.t),
    order ≡ₚ standings self ∧
    StronglySorted entry_not_below order ∧
    (∀ pts w,
       filter (entry_tied pts w) order
       = filter (entry_tied pts w) (standings self)) ∧
    get_sorted_standings self
    = zip_with line (seqZ 1 (Z.of_nat (length (standings self)))) order.
Proof.
  set (before := λ x y : row, tuple_le (sort_key y) (sort_key x)).
  set (before' := λ a b : string * StandingsData.t,
                    before (row_of a) (row_of b)).
  exists (stable_sort before' (standings self)).
  split; [apply stable_sort_perm|]. split; [|split].
  - apply (StronglySorted_fmap_inv id _ (λ a b, before' a b)).
    + intros [p1 d1] [p2 d2] Hle%Is_true_true%tuple_le_spec.
      unfold entry_not_below. simpl in *. lia.
    + rewrite list_fmap_id. apply stable_sort_sorted.
      * intros x y. apply key_order_total.
      * intros x y z. apply key_order_trans.
  - intros pts w. apply stable_sort_filter.
    intros [p1 d1] [p2 d2] [Hx1 Hx2] [Hy1 Hy2]. apply tuple_le_spec.
    simpl in *. lia.
  - unfold get_sorted_standings, sort_reverse. fold before.
    rewrite stable_sort_fmap. fold before'.
    by rewrite ranked_rows_lines, stable_sort_length.
Qed.

(** Two players level on points and wins stay in ledger order, and the
    four ranks are 1 to 4. *)
Example get_sorted_standings_tie :
  get_sorted_standings
    (mkManager [("P01", StandingsData.mk 2 2 0 0 6 "Ann");
                ("P02", StandingsData.mk 2 1 0 1 3 "Bob");
                ("P03", StandingsData.mk 2 1 0 1 3 "Cy");
                ("P04", StandingsData.mk 2 0 0 2 0 "Di")])
  = [PlayerStanding.mk 1 "P01" "Ann" 2 2 0 0 6;
     PlayerStanding.mk 2 "P02" "Bob" 2 1 0 1 3;
     PlayerStanding.mk 3 "P03" "Cy" 2 1 0 1 3;
     PlayerStanding.mk 4 "P04" "Di" 2 0 0 2 0].
Proof. vm_compute. reflexivity. Qed.

Example get_sorted_standings_order :
  PlayerStanding.player_id <$>
    get_sorted_standings
      (mkManager [("P01", StandingsData.mk 3 0 1 2 1 "Ann");
                  ("P02", StandingsData.mk 3 1 1 1 4 "Bob");
                  ("P03", StandingsData.mk 3 1 0 2 3 "Cy");
                  ("P04", StandingsData.mk 3 1 1 1 4 "Di");
                  ("P05", StandingsData.mk 3 0 3 0 3 "Ed")])
  = ["P02"; "P04"; "P03"; "P05"; "P01"].
Proof. vm_compute. reflexivity. Qed.

(** ** The registration gate *)

Import Registration.

Lemma after_snoc self attempts a :
  after self (attempts ++ [a]) = (register (after self attempts) a).1.
Proof. unfold after. by rewrite foldl_app. Qed.

Lemma attempts_of_snoc r attempts a :
  attempts_of r (attempts ++ [a])
  = attempts_of r attempts + (if decide (who a = r) then 1 else 0).
Proof.
  unfold attempts_of. rewrite filter_app, length_app, filter_cons, filter_nil.
  destruct (decide (who a = r)); simpl; lia.
Qed.

Lemma attempts_of_nonneg r attempts : 0 ≤ attempts_of r attempts.
Proof. unfold attempts_of. lia. Qed.

(** The counters are the numbers of attempts, capped at 2 and 4. *)
Lemma counters_after attempts :
  referee_count (after init attempts) = attempts_of Referee attempts `min` 2 ∧
  player_count (after init attempts) = attempts_of Player attempts `min` 4.
Proof.
  induction attempts as [|a attempts [IHr IHp]] using rev_ind; [done|].
  rewrite after_snoc, !attempts_of_snoc.
  pose proof (attempts_of_nonneg Referee attempts).
  pose proof (attempts_of_nonneg Player attempts).
  unfold register, register_referee, register_player.
  destruct (who a) eqn:Hwho; simpl.
  - destruct (Z.geb_spec (referee_count (after init attempts)) 2); simpl;
      rewrite ?decide_True, ?decide_False by done; lia.
  - destruct (Z.geb_spec (player_count (after init attempts)) 4); simpl;
      rewrite ?decide_True, ?decide_False by done; lia.
Qed.

Lemma format_02d_small :
  format_02d 1 = "01" ∧ format_02d 2 = "02" ∧
  format_02d 3 = "03" ∧ format_02d 4 = "04".
Proof. vm_compute. auto. Qed.

(** C6. In any sequence of registration messages the two counters are
    the numbers of referee and player attempts so far, capped at 2 and 4.
    An attempt that comes after [n] earlier attempts of its own role is
    accepted under the [n]-th id of the role (REF01, REF02; P01, ..., P04,
    counting from 0) when there is one, with the counter of the role
    incremented and the participant stored under that id; otherwise
    (from the 3rd referee and the 5th player on) it returns nothing and
    leaves the manager, that is both counters and both participant maps,
    as it was. *)
Theorem register_limits (earlier : list attempt) (a : attempt) :
  let self := after init earlier in
  let n := Z.to_nat (attempts_of (who a) earlier) in
  referee_count self = attempts_of Referee earlier `min` 2 ∧
  player_count self = attempts_of Player earlier `min` 4 ∧
  match issued_ids (who a) !! n with
  | Some id =>
      register self a
      = (accepted self a id,
         Some (RegistrationResponse.mk "ACCEPTED" id (token a)))
  | None => register self a = (self, None)
  end.
Proof.
  intros self n. subst self n.
  destruct (counters_after earlier) as [Hr Hp].
  split; [done|]. split; [done|].
  destruct format_02d_small as (F1 & F2 & F3 & F4).
  unfold register, register_referee, register_player, accepted, attempts_of.
  rewrite Nat2Z.id. unfold attempts_of in Hr, Hp.
  destruct (who a) eqn:Hwho; simpl issued_ids.
  - destruct (length (filter (λ a, who a = Referee) earlier))
      as [|[|n]] eqn:Hn; simpl lookup.
    + replace (referee_count (after init earlier)) with 0 by lia.
      change (0 + 1) with 1. by rewrite F1.
    + replace (referee_count (after init earlier)) with 1 by lia.
      change (1 + 1) with 2. by rewrite F2.
    + replace (referee_count (after init earlier)) with 2 by lia. done.
  - destruct (length (filter (λ a, who a = Player) earlier))
      as [|[|[|[|n]]]] eqn:Hn; simpl lookup.
    + replace (player_count (after init earlier)) with 0 by lia.
      change (0 + 1) with 1. by rewrite F1.
    + replace (player_count (after init earlier)) with 1 by lia.
      change (1 + 1) with 2. by rewrite F2.
    + replace (player_count (after init earlier)) with 2 by lia.
      change (2 + 1) with 3. by rewrite F3.
    + replace (player_count (after init earlier)) with 3 by lia.
      change (3 + 1) with 4. by rewrite F4.
    + replace (player_count (after init earlier)) with 4 by lia. done.
Qed.

(** In the sample sequence the third referee and the fifth player get no
    reply, and the counters stop at 2 and 4. *)
Example register_sequence :
  replies init sample_messages
  = [Some (RegistrationResponse.mk "ACCEPTED" "REF01" "t1");
     Some (RegistrationResponse.mk "ACCEPTED" "P01" "t2");
     Some (RegistrationResponse.mk "ACCEPTED" "REF02" "t3");
     None;
     Some (RegistrationResponse.mk "ACCEPTED" "P02" "t5");
     Some (RegistrationResponse.mk "ACCEPTED" "P03" "t6");
     Some (RegistrationResponse.mk "ACCEPTED" "P04" "t7");
     None] ∧
  referee_count (after init sample_messages) = 2 ∧
  player_count (after init sample_messages) = 4 ∧
  dict_keys (referees (after init sample_messages)) = ["REF01"; "REF02"] ∧
  dict_keys (players (after init sample_messages))
  = ["P01"; "P02"; "P03"; "P04"].
Proof. vm_compute. auto. Qed.

(** ** Text helpers on sample values *)

Example format_02d_samples :
  format_02d 0 = "00" ∧ format_02d 12 = "12" ∧ format_02d 123 = "123" ∧
  format_02d (-1) = "-1" ∧ str_int 10 = "10".
Proof. vm_compute. auto. Qed.

Example lower_samples : lower "OdD" = "odd" ∧ lower "EVEN" = "even".
Proof. vm_compute. auto. Qed.

Example sorted_samples :
  sorted ["P03"; "P01"; "P10"; "P02"] = ["P01"; "P02"; "P03"; "P10"].
Proof. vm_compute. reflexivity. Qed.

(** * Further properties *)

(** ** Indexing *)

Lemma index_lookup {A} (l : list A) (i : Z) x :
  0 ≤ i → l !! Z.to_nat i = Some x → index l i = inr x.
Proof.
  intros Hi Hx. unfold index.
  destruct (decide (i < 0)) as [?|_]; [lia|].
  pose proof (lookup_lt_Some _ _ _ Hx).
  rewrite decide_True by lia. by rewrite Hx.
Qed.

Lemma index_out {A} (l : list A) (i : Z) :
  Z.of_nat (length l) ≤ i → index l i = inl IndexError.
Proof.
  intros Hi. unfold index.
  destruct (decide (i < 0)) as [?|_]; [lia|].
  by rewrite decide_False by lia.
Qed.

Lemma imod_nonzero a b : b ≠ 0 → imod a b = inr (a `mod` b).
Proof. intros Hb. unfold imod. by rewrite decide_False. Qed.

(** ** The scheduler on any number of players and referees *)

(** The referee of the match with index [match_idx]. *)
Lemma referee_of_match (referees : list string) r1 match_idx :
  0 ≤ match_idx →
  head referees = Some r1 →
  ∃ r, referees
         !! Z.to_nat (match_idx `mod` Z.of_nat (length referees)) = Some r.
Proof.
  intros Hi Hhead. destruct referees as [|r0 rs]; [done|].
  apply lookup_lt_is_Some_2.
  pose proof (Z.mod_pos_bound match_idx (Z.of_nat (length (r0 :: rs)))).
  simpl length in *. lia.
Qed.

Lemma make_match_ok self round_num match_idx p1 p2 x y r :
  0 ≤ match_idx → 0 ≤ p1 → 0 ≤ p2 →
  referee_ids self
    !! Z.to_nat (match_idx `mod` Z.of_nat (length (referee_ids self)))
    = Some r →
  player_ids self !! Z.to_nat p1 = Some x →
  player_ids self !! Z.to_nat p2 = Some y →
  make_match self round_num match_idx (p1, p2)
  = inr (Match.mk ("R" +:+ str_int round_num +:+ "M"
                       +:+ str_int (match_idx + 1))
                  "even_odd" x y r).
Proof.
  intros Hi H1 H2 Hr Hx Hy. unfold make_match.
  assert (referee_ids self ≠ []) as Hne.
  { intros Hnil. by rewrite Hnil in Hr. }
  rewrite imod_nonzero by (destruct (referee_ids self); [done | simpl; lia]).
  simpl.
  rewrite (index_lookup (referee_ids self) _ r); [|apply Z.mod_pos_bound|done].
  2: { destruct (referee_ids self); [done | simpl; lia]. }
  simpl. rewrite (index_lookup (player_ids self) p1 x) by done. simpl.
  by rewrite (index_lookup (player_ids self) p2 y) by done.
Qed.

Lemma make_match_no_referee self round_num match_idx p :
  referee_ids self = [] →
  make_match self round_num match_idx p = inl ZeroDivisionError.
Proof. intros Hnil. unfold make_match. by rewrite Hnil. Qed.

Lemma make_match_short self round_num match_idx p1 p2 :
  0 ≤ match_idx →
  referee_ids self ≠ [] →
  Z.of_nat (length (player_ids self)) ≤ p1 ∨
  (0 ≤ p1 ∧ Z.of_nat (length (player_ids self)) ≤ p2) →
  make_match self round_num match_idx (p1, p2) = inl IndexError.
Proof.
  intros Hi Hne Hshort. unfold make_match.
  destruct (referee_ids self) as [|r0 rs] eqn:Hrefs; [done|].
  destruct (referee_of_match (r0 :: rs) r0 match_idx Hi eq_refl) as [r Hr].
  rewrite imod_nonzero by (simpl; lia). simpl.
  rewrite (index_lookup (r0 :: rs) _ r);
    [|apply Z.mod_pos_bound; simpl; lia|done].
  simpl. destruct Hshort as [H1|[H1 H2]].
  - by rewrite (index_out (player_ids self) p1).
  - destruct (decide (p1 < Z.of_nat (length (player_ids self)))) as [Hlt|Hge].
    + destruct (lookup_lt_is_Some_2 (player_ids self) (Z.to_nat p1))
        as [x Hx]; [lia|].
      rewrite (index_lookup (player_ids self) p1 x) by done. simpl.
      by rewrite (index_out (player_ids self) p2).
    + by rewrite (index_out (player_ids self) p1) by lia.
Qed.

Lemma make_match_set_schedule self s round_num match_idx p :
  make_match (set_schedule self s) round_num match_idx p
  = make_match self round_num match_idx p.
Proof. done. Qed.

(** With at least four players and one referee the schedule is the round
    robin of the four smallest ids; the second referee, when there is
    one, takes the second match of each round. *)
Lemma generate_schedule_general self a b c d ps r1 rs :
  player_ids self = a :: b :: c :: d :: ps →
  referee_ids self = r1 :: rs →
  generate_schedule self
  = (set_schedule self (round_robin a b c d r1 (default r1 (head rs))),
     inr (round_robin a b c d r1 (default r1 (head rs)))).
Proof.
  intros Hps Hrs.
  assert (referee_ids self !! Z.to_nat (0 `mod` Z.of_nat (length (referee_ids self)))
          = Some r1) as Href0.
  { rewrite Hrs. by rewrite Z.mod_0_l by (simpl; lia). }
  assert (referee_ids self !! Z.to_nat (1 `mod` Z.of_nat (length (referee_ids self)))
          = Some (default r1 (head rs))) as Href1.
  { rewrite Hrs. destruct rs as [|r2 rs]; [done|].
    rewrite Z.mod_small by (simpl; lia). done. }
  assert (∀ round_num match_idx p1 p2 x y r,
            (a :: b :: c :: d :: ps) !! Z.to_nat p1 = Some x →
            (a :: b :: c :: d :: ps) !! Z.to_nat p2 = Some y →
            0 ≤ p1 → 0 ≤ p2 →
            (match_idx = 0 ∧ r = r1) ∨
            (match_idx = 1 ∧ r = default r1 (head rs)) →
            make_match self round_num match_idx (p1, p2)
            = inr (Match.mk ("R" +:+ str_int round_num +:+ "M"
                                 +:+ str_int (match_idx + 1))
                            "even_odd" x y r)) as Hmatch.
  { intros n i p1 p2 x y r Hx Hy H1 H2 Hi.
    apply make_match_ok; [lia|done|done| |by rewrite Hps..].
    by destruct Hi as [[-> ->]|[-> ->]]. }
  unfold generate_schedule. cbn -[make_match].
  rewrite !make_match_set_schedule.
  rewrite (Hmatch _ 0 0 1 a b r1), (Hmatch _ 1 2 3 c d (default r1 (head rs)))
    by (done || lia || auto).
  cbn -[make_match]. rewrite !make_match_set_schedule.
  rewrite (Hmatch _ 0 0 2 a c r1), (Hmatch _ 1 1 3 b d (default r1 (head rs)))
    by (done || lia || auto).
  cbn -[make_match]. rewrite !make_match_set_schedule.
  rewrite (Hmatch _ 0 0 3 a d r1), (Hmatch _ 1 1 2 b c (default r1 (head rs)))
    by (done || lia || auto).
  done.
Qed.

Lemma sorted_nil_iff l : sorted l = [] ↔ l = [].
Proof.
  split; [|by intros ->]. intros Hs.
  apply Permutation_nil. by rewrite <-(sorted_perm l), Hs.
Qed.

Lemma sorted_at_least_4 players :
  (4 ≤ length players)%nat →
  ∃ a b c d rest, sorted players = a :: b :: c :: d :: rest.
Proof.
  intros Hlen. rewrite <-sorted_length in Hlen.
  destruct (sorted players) as [|a [|b [|c [|d rest]]]]; simpl in Hlen;
    try lia. eauto 6.
Qed.

(** X1. Without referees [generate_schedule] raises [ZeroDivisionError]
    at the first match, whatever the players, and the stored schedule is
    empty. *)
Theorem generate_schedule_no_referees (players : list string) :
  generate_schedule (Scheduler.init players [])
  = (Scheduler.init players [], inl ZeroDivisionError).
Proof.
  unfold generate_schedule. cbn -[make_match].
  by rewrite make_match_no_referee.
Qed.

(** X2. With fewer than four players and at least one referee
    [generate_schedule] raises [IndexError] before the first round is
    complete, so the stored schedule is empty. *)
Theorem generate_schedule_too_few_players (players referees : list string) :
  (length players < 4)%nat →
  referees ≠ [] →
  generate_schedule (Scheduler.init players referees)
  = (Scheduler.init players referees, inl IndexError).
Proof.
  intros Hlen Hrefs.
  assert (sorted referees ≠ []) as Hrefs' by (by rewrite sorted_nil_iff).
  rewrite <-sorted_length in Hlen.
  unfold generate_schedule. cbn -[make_match].
  rewrite !make_match_set_schedule.
  destruct (decide (length (sorted players) < 2)%nat) as [Hlt|Hge].
  - rewrite (make_match_short _ _ 0 0 1); [done|lia|done|]. simpl. lia.
  - destruct (lookup_lt_is_Some_2 (sorted players) 0) as [x Hx]; [lia|].
    destruct (lookup_lt_is_Some_2 (sorted players) 1) as [y Hy]; [lia|].
    destruct (sorted referees) as [|r1 rs] eqn:Hrs; [done|].
    destruct (referee_of_match (r1 :: rs) r1 0) as [r Hr]; [lia|done|].
    rewrite (make_match_ok _ _ 0 0 1 x y r);
      [|lia|lia|lia|by simpl; rewrite Hrs|done|done].
    simpl.
    rewrite (make_match_short _ _ (0 + 1) 2 3);
      [done|lia|by simpl; rewrite Hrs|].
    simpl. lia.
Qed.

Lemma generate_schedule_too_few_players_witness :
  generate_schedule (Scheduler.init ["P02"; "P01"; "P03"] ["REF01"])
  = (Scheduler.init ["P02"; "P01"; "P03"] ["REF01"], inl IndexError).
Proof.
  apply (generate_schedule_too_few_players ["P02"; "P01"; "P03"] ["REF01"]);
    [simpl; lia | discriminate].
Defined.

(** X3. With at least four players and at least one referee
    [generate_schedule] succeeds: it schedules the four smallest ids
    only, the first referee takes the first match of every round and the
    second referee (the first again when there is only one) the second
    match, and the six match ids are different. *)
Theorem generate_schedule_first_four (players referees : list string) :
  (4 ≤ length players)%nat →
  referees ≠ [] →
  ∃ a b c d rest r1 rs,
    sorted players = a :: b :: c :: d :: rest ∧
    sorted referees = r1 :: rs ∧
    let sched := round_robin a b c d r1 (default r1 (head rs)) in
    generate_schedule (Scheduler.init players referees)
      = (set_schedule (Scheduler.init players referees) sched, inr sched) ∧
    get_total_rounds (set_schedule (Scheduler.init players referees) sched)
      = 3 ∧
    NoDup (Match.match_id <$> concat sched).
Proof.
  intros Hlen Hrefs.
  destruct (sorted_at_least_4 players Hlen) as (a & b & c & d & rest & Hs).
  destruct (sorted referees) as [|r1 rs] eqn:Hrs.
  { by apply (proj1 (sorted_nil_iff _)) in Hrs. }
  exists a, b, c, d, rest, r1, rs. split; [done|]. split; [done|].
  split; [|split].
  - apply (generate_schedule_general _ a b c d rest r1 rs);
      simpl; by rewrite ?Hs, ?Hrs.
  - done.
  - simpl. apply (bool_decide_unpack _). vm_compute. exact I.
Qed.

Lemma generate_schedule_first_four_witness :
  ∃ a b c d rest r1 rs,
    sorted ["P05"; "P03"; "P01"; "P04"; "P02"] = a :: b :: c :: d :: rest ∧
    sorted ["REF01"] = r1 :: rs ∧
    let sched := round_robin a b c d r1 (default r1 (head rs)) in
    generate_schedule
      (Scheduler.init ["P05"; "P03"; "P01"; "P04"; "P02"] ["REF01"])
      = (set_schedule
           (Scheduler.init ["P05"; "P03"; "P01"; "P04"; "P02"] ["REF01"])
           sched, inr sched) ∧
    get_total_rounds
      (set_schedule
         (Scheduler.init ["P05"; "P03"; "P01"; "P04"; "P02"] ["REF01"])
         sched) = 3 ∧
    NoDup (Match.match_id <$> concat sched).
Proof.
  apply (generate_schedule_first_four
           ["P05"; "P03"; "P01"; "P04"; "P02"] ["REF01"]);
    [simpl; lia | discriminate].
Defined.

(** Players and appearances in the written-out schedule, without
    assuming that the four ids differ. *)
Lemma round_robin_known a b c d r1 r2 m :
  m ∈ concat (round_robin a b c d r1 r2) →
  Match.player_A_id m ∈ [a; b; c; d] ∧ Match.player_B_id m ∈ [a; b; c; d].
Proof.
  simpl. rewrite !elem_of_4. set_unfold.
  intros [->|[->|[->|[->|[->|[->|[]]]]]]]; simpl; auto.
Qed.

Lemma round_robin_appearances_count a b c d r1 r2 x :
  appearances x (concat (round_robin a b c d r1 r2))
  = 3 * ((if decide (a = x) then 1 else 0) + (if decide (b = x) then 1 else 0)
         + (if decide (c = x) then 1 else 0)
         + (if decide (d = x) then 1 else 0)).
Proof.
  simpl.
  destruct (decide (a = x)), (decide (b = x)), (decide (c = x)),
    (decide (d = x)); reflexivity.
Qed.

Lemma not_NoDup_4 (a b c d : string) :
  ¬ NoDup [a; b; c; d] →
  ∃ x, 2 ≤ (if decide (a = x) then 1 else 0) + (if decide (b = x) then 1 else 0)
           + (if decide (c = x) then 1 else 0)
           + (if decide (d = x) then 1 else 0).
Proof.
  intros Hdup.
  destruct (decide (a = b)) as [<-|Hab].
  { exists a. rewrite !decide_True by done. repeat case_decide; lia. }
  destruct (decide (a = c)) as [<-|Hac].
  { exists a. rewrite !decide_True by done. repeat case_decide; lia. }
  destruct (decide (a = d)) as [<-|Had].
  { exists a. rewrite !decide_True by done. repeat case_decide; lia. }
  destruct (decide (b = c)) as [<-|Hbc].
  { exists b. rewrite (decide_True (P := b = b)) by done.
    repeat case_decide; lia. }
  destruct (decide (b = d)) as [<-|Hbd].
  { exists b. rewrite (decide_True (P := b = b)) by done.
    repeat case_decide; lia. }
  destruct (decide (c = d)) as [<-|Hcd].
  { exists c. rewrite (decide_True (P := c = c)) by done.
    repeat case_decide; lia. }
  exfalso. apply Hdup. rewrite !NoDup_cons, !not_elem_of_cons.
  repeat split; try done; try apply not_elem_of_nil; try apply NoDup_nil_2;
    congruence.
Qed.

(** X4. On four player ids and at least one referee, the schedule that
    [generate_schedule] stores passes [validate_schedule] exactly when
    the four ids are different. *)
Theorem validate_generated_four (players referees : list string) :
  length players = 4%nat →
  referees ≠ [] →
  validate_schedule (generate_schedule (Scheduler.init players referees)).1
  = inr (bool_decide (NoDup players)).
Proof.
  intros Hlen Hrefs.
  destruct (list_of_length_4 (sorted players)) as (a & b & c & d & Hs).
  { by rewrite sorted_length. }
  destruct (sorted referees) as [|r1 rs] eqn:Hrs.
  { by apply (proj1 (sorted_nil_iff _)) in Hrs. }
  rewrite (generate_schedule_general _ a b c d [] r1 rs)
    by (simpl; by rewrite ?Hs, ?Hrs).
  simpl. set (self := set_schedule _ _).
  assert (player_ids self = [a; b; c; d]) as Hids by done.
  destruct (validate_schedule_known self) as (ok & -> & Hok).
  { unfold known_players. rewrite Hids. apply Forall_forall.
    intros m Hm. by apply (round_robin_known a b c d r1 (default r1 (head rs))). }
  f_equal. rewrite Hids in Hok. simpl schedule in Hok.
  assert (NoDup players ↔ NoDup [a; b; c; d]) as Hnd.
  { by rewrite <-Hs, sorted_perm. }
  destruct (decide (NoDup players)) as [Hyes|Hno].
  - rewrite bool_decide_eq_true_2 by done. apply Hok.
    apply Hnd, NoDup_4 in Hyes. split.
    + intros x Hx. by apply round_robin_appearances.
    + by apply round_robin_no_repeat.
  - rewrite bool_decide_eq_false_2 by done.
    destruct ok; [|done]. exfalso.
    destruct Hok as [Hok _]. destruct (Hok eq_refl) as [Hthree _].
    rewrite Hnd in Hno. apply not_NoDup_4 in Hno as [x Hx].
    assert (x ∈ [a; b; c; d]) as Hin.
    { rewrite elem_of_4. repeat case_decide; auto; lia. }
    specialize (Hthree x Hin).
    rewrite round_robin_appearances_count in Hthree. lia.
Qed.

Lemma validate_generated_four_witness :
  validate_schedule
    (generate_schedule
       (Scheduler.init ["P01"; "P02"; "P02"; "P03"] ["REF01"])).1
  = inr (bool_decide (NoDup ["P01"; "P02"; "P02"; "P03"])).
Proof.
  apply (validate_generated_four ["P01"; "P02"; "P02"; "P03"] ["REF01"]);
    [reflexivity | discriminate].
Defined.

(** X5. On more than four different player ids [generate_schedule]
    succeeds, returning and storing a schedule in which the ids after
    the fourth (in sorted order) have no match, and [validate_schedule]
    returns [False] on it. *)
Theorem validate_generated_more_than_four (players referees : list string) :
  NoDup players →
  (4 < length players)%nat →
  referees ≠ [] →
  ∃ sched,
    generate_schedule (Scheduler.init players referees)
      = (set_schedule (Scheduler.init players referees) sched, inr sched) ∧
    (∀ p, p ∈ drop 4 (sorted players) → appearances p (concat sched) = 0) ∧
    validate_schedule (generate_schedule (Scheduler.init players referees)).1
    = inr false.
Proof.
  intros Hnd Hlen Hrefs.
  destruct (sorted_at_least_4 players) as (a & b & c & d & rest & Hs); [lia|].
  destruct rest as [|e rest].
  { rewrite <-sorted_length, Hs in Hlen. simpl in Hlen. lia. }
  destruct (sorted referees) as [|r1 rs] eqn:Hrs.
  { by apply (proj1 (sorted_nil_iff _)) in Hrs. }
  assert (NoDup (a :: b :: c :: d :: e :: rest)) as Hnd'.
  { by rewrite <-Hs, sorted_perm. }
  exists (round_robin a b c d r1 (default r1 (head rs))).
  rewrite (generate_schedule_general _ a b c d (e :: rest) r1 rs)
    by (simpl; by rewrite ?Hs, ?Hrs).
  split; [done|]. split.
  { intros p Hp. rewrite Hs in Hp. simpl in Hp. rewrite elem_of_cons in Hp.
    rewrite round_robin_appearances_count.
    rewrite !NoDup_cons, !not_elem_of_cons in Hnd'.
    rewrite !decide_False; [done|intros ->; tauto..]. }
  simpl. set (self := set_schedule _ _).
  assert (player_ids self = a :: b :: c :: d :: e :: rest) as Hids by done.
  destruct (validate_schedule_known self) as (ok & -> & Hok).
  { unfold known_players. rewrite Hids. apply Forall_forall.
    intros m Hm.
    destruct (round_robin_known a b c d r1 (default r1 (head rs)) m Hm)
      as [HA HB].
    rewrite elem_of_4 in HA, HB. set_unfold. tauto. }
  f_equal. destruct ok; [|done]. exfalso.
  destruct Hok as [Hok _]. destruct (Hok eq_refl) as [Hthree _].
  rewrite Hids in Hthree. simpl schedule in Hthree.
  specialize (Hthree e). rewrite round_robin_appearances_count in Hthree.
  rewrite !NoDup_cons, !not_elem_of_cons in Hnd'.
  rewrite !decide_False in Hthree by (intros ->; tauto).
  assert (e ∈ a :: b :: c :: d :: e :: rest) as Hin by (set_unfold; tauto).
  specialize (Hthree Hin). lia.
Qed.

Lemma validate_generated_more_than_four_witness :
  ∃ sched,
    generate_schedule
      (Scheduler.init ["P05"; "P03"; "P01"; "P04"; "P02"] ["REF01"])
      = (set_schedule
           (Scheduler.init ["P05"; "P03"; "P01"; "P04"; "P02"] ["REF01"])
           sched,
         inr sched) ∧
    (∀ p, p ∈ drop 4 (sorted ["P05"; "P03"; "P01"; "P04"; "P02"]) →
          appearances p (concat sched) = 0) ∧
    validate_schedule
      (generate_schedule
         (Scheduler.init ["P05"; "P03"; "P01"; "P04"; "P02"] ["REF01"])).1
    = inr false.
Proof.
  apply (validate_generated_more_than_four
           ["P05"; "P03"; "P01"; "P04"; "P02"] ["REF01"]);
    [apply (bool_decide_unpack _); vm_compute; exact I
    | simpl; lia | discriminate].
Defined.

(** X6. [get_round_matches] never raises: for a round number from 1 to
    the number of stored rounds it returns that round, and for any other
    number (zero, negative, too large) the empty list. *)
Theorem get_round_matches_total (self : TournamentScheduler) (round_num : Z) :
  ∃ round,
    get_round_matches self round_num = inr round ∧
    (1 ≤ round_num ≤ get_total_rounds self →
       schedule self !! Z.to_nat (round_num - 1) = Some round) ∧
    (¬ 1 ≤ round_num ≤ get_total_rounds self → round = []).
Proof.
  unfold get_round_matches, get_total_rounds.
  destruct (decide (1 ≤ round_num ≤ Z.of_nat (length (schedule self))))
    as [Hin|Hout].
  - destruct (lookup_lt_is_Some_2 (schedule self) (Z.to_nat (round_num - 1)))
      as [round Hround]; [lia|].
    exists round. rewrite (index_lookup _ _ round) by (done || lia).
    split; [done|]. split; [done|]. intros Hn. by destruct Hn.
  - exists []. split; [done|]. split; [|done]. intros Hin. by destruct Hout.
Qed.

(** X7. In the schedule of four different players every round is a
    perfect matching: for each of the rounds 1, 2 and 3,
    [get_round_matches] returns two matches, every player takes part in
    exactly one of them, the first is given to the first referee and the
    second to the second referee. *)
Theorem rounds_are_perfect_matchings
    (players referees : list string) (round_num : Z) :
  NoDup players →
  length players = 4%nat →
  length referees = 2%nat →
  1 ≤ round_num ≤ 3 →
  ∃ m1 m2,
    get_round_matches
      (generate_schedule (Scheduler.init players referees)).1 round_num
      = inr [m1; m2] ∧
    (∀ x, x ∈ players → length (filter (takes_part x) [m1; m2]) = 1%nat) ∧
    sorted referees = [Match.referee_id m1; Match.referee_id m2] ∧
    Match.match_id m1 = "R" +:+ str_int round_num +:+ "M1" ∧
    Match.match_id m2 = "R" +:+ str_int round_num +:+ "M2".
Proof.
  intros Hnd Hlen Hrefs Hround.
  destruct (sorted_four players Hnd Hlen)
    as (a & b & c & d & Hs & Hdistinct & Hin).
  destruct (list_of_length_2 (sorted referees)) as (r1 & r2 & Hr).
  { by rewrite sorted_length. }
  rewrite (generate_schedule_four _ a b c d r1 r2) by done.
  rewrite Hr. destruct Hdistinct as (? & ? & ? & ? & ? & ?).
  assert (round_num = 1 ∨ round_num = 2 ∨ round_num = 3)
    as [->|[->| ->]] by lia;
    (eexists _, _; split; [reflexivity|]; split; [|by vm_compute]);
    intros x [->|[->|[->| ->]]]%Hin;
    by count_matches_by decide_by_ids.
Qed.

Lemma rounds_are_perfect_matchings_witness :
  ∃ m1 m2,
    get_round_matches
      (generate_schedule
         (Scheduler.init ["P04"; "P03"; "P02"; "P01"] ["REF02"; "REF01"])).1 2
      = inr [m1; m2] ∧
    (∀ x, x ∈ ["P04"; "P03"; "P02"; "P01"] →
       length (filter (takes_part x) [m1; m2]) = 1%nat) ∧
    sorted ["REF02"; "REF01"] = [Match.referee_id m1; Match.referee_id m2] ∧
    Match.match_id m1 = "R" +:+ str_int 2 +:+ "M1" ∧
    Match.match_id m2 = "R" +:+ str_int 2 +:+ "M2".
Proof.
  apply (rounds_are_perfect_matchings
           ["P04"; "P03"; "P02"; "P01"] ["REF02"; "REF01"] 2);
    [apply (bool_decide_unpack _); vm_compute; exact I
    | reflexivity | reflexivity | lia].
Defined.

(** The loops of [generate_schedule] only read the two id lists. *)
Lemma build_rounds_ids todo : ∀ self,
  player_ids (build_rounds self todo).1 = player_ids self ∧
  referee_ids (build_rounds self todo).1 = referee_ids self.
Proof.
  induction todo as [|[round_idx round_pairings] todo IH]; intros self;
    simpl; [done|].
  destruct (build_round _ _ _ _) as [e|round]; simpl; [done|].
  destruct (IH (set_schedule self (schedule self ++ [round]))) as [-> ->].
  done.
Qed.

Lemma generate_schedule_ids self :
  player_ids (generate_schedule self).1 = player_ids self ∧
  referee_ids (generate_schedule self).1 = referee_ids self.
Proof.
  unfold generate_schedule.
  pose proof (build_rounds_ids (enumerate pairings) (set_schedule self []))
    as Hids.
  destruct (build_rounds _ _) as [self' r]. done.
Qed.

(** X8. [generate_schedule] starts from an empty schedule each time: a
    second call on the scheduler leaves the same stored schedule and
    returns the same result as the first (also when that is an
    exception), instead of appending rounds. *)
Theorem generate_schedule_again (self : TournamentScheduler) :
  generate_schedule (generate_schedule self).1 = generate_schedule self.
Proof.
  destruct (generate_schedule_ids self) as [Hp Hr].
  unfold generate_schedule at 1 3.
  replace (set_schedule (generate_schedule self).1 [])
    with (set_schedule self []); [done|].
  unfold set_schedule. by rewrite Hp, Hr.
Qed.

(** X9. Before any schedule is generated [validate_schedule] returns
    [False], except for a scheduler without players, where it returns
    [True]. *)
Theorem validate_schedule_fresh (players referees : list string) :
  validate_schedule (Scheduler.init players referees)
  = inr (bool_decide (players = [])).
Proof.
  destruct (validate_schedule_known (Scheduler.init players referees))
    as (ok & -> & Hok).
  { unfold known_players. simpl. constructor. }
  f_equal. simpl in Hok. destruct players as [|p players].
  - rewrite bool_decide_eq_true_2 by done. apply Hok. split.
    + intros x Hx. by apply elem_of_nil in Hx.
    + intros (x & y & Hlt). simpl in Hlt. lia.
  - rewrite bool_decide_eq_false_2 by done. destruct ok; [|done].
    destruct Hok as [Hok _]. destruct (Hok eq_refl) as [Hthree _].
    specialize (Hthree p). rewrite sorted_perm in Hthree.
    discriminate Hthree. left.
Qed.

(** ** Net effect of the ledger updates *)

Section dict_alter_facts.
Context {V : Type}.
Implicit Types (d : pydict V) (k : string) (f : V → V).

Lemma dict_get_alter f k d p :
  dict_get (dict_alter f k d) p
  = if decide (p = k) then f <$> dict_get d p else dict_get d p.
Proof.
  unfold dict_alter. destruct (decide (p = k)) as [->|Hne].
  - destruct (dict_get d k) eqn:Hk; simpl.
    + by rewrite dict_get_set_eq.
    + by rewrite Hk.
  - destruct (dict_get d k) eqn:Hk; [|done].
    by rewrite dict_get_set_ne.
Qed.

Lemma dict_get_alter_eq f k d :
  dict_get (dict_alter f k d) k = f <$> dict_get d k.
Proof. by rewrite dict_get_alter, decide_True. Qed.

Lemma dict_get_alter_ne f k d p :
  p ≠ k → dict_get (dict_alter f k d) p = dict_get d p.
Proof. intros Hne. by rewrite dict_get_alter, decide_False. Qed.

Lemma dict_keys_alter f k d : dict_keys (dict_alter f k d) = dict_keys d.
Proof.
  unfold dict_alter. destruct (dict_get d k) eqn:Hk; [|done].
  apply dict_keys_set_present. by rewrite Hk.
Qed.
End dict_alter_facts.

Lemma update_entry_alter f k self :
  is_Some (dict_get (standings self) k) →
  update_entry f k self
  = (Standings.mkManager (dict_alter f k (standings self)), inr ()).
Proof.
  intros [d Hd]. unfold update_entry, dict_alter. by rewrite Hd.
Qed.

Lemma update_entry_missing f k self :
  dict_get (standings self) k = None →
  update_entry f k self = (self, inl (KeyError k)).
Proof. intros Hd. unfold update_entry. by rewrite Hd. Qed.

Lemma seq_update_entry f k s self :
  is_Some (dict_get (standings self) k) →
  Standings.seq (update_entry f k) s self
  = s (Standings.mkManager (dict_alter f k (standings self))).
Proof. intros Hk. unfold Standings.seq. by rewrite update_entry_alter. Qed.

(** *** The players of the ledger *)

Lemma same_players_refl self : same_players self self.
Proof. by split. Qed.

Lemma same_players_trans self1 self2 self3 :
  same_players self1 self2 → same_players self2 self3 →
  same_players self1 self3.
Proof.
  intros [Hk1 Hn1] [Hk2 Hn2]. split; [congruence|].
  intros p. by rewrite Hn2, Hn1.
Qed.

Lemma update_entry_same_players f k self :
  (∀ d, StandingsData.display_name (f d) = StandingsData.display_name d) →
  same_players self (update_entry f k self).1.
Proof.
  intros Hf. destruct (dict_get (standings self) k) as [d|] eqn:Hk.
  - rewrite update_entry_alter by (by rewrite Hk). simpl. split; simpl.
    + apply dict_keys_alter.
    + intros p. unfold get_player_data. simpl. rewrite dict_get_alter.
      case_decide; [|done]. destruct (dict_get (standings self) p); simpl;
        [by rewrite Hf | done].
  - rewrite update_entry_missing by done. apply same_players_refl.
Qed.

Lemma seq_same_players (s1 s2 : stmt) :
  (∀ self, same_players self (s1 self).1) →
  (∀ self, same_players self (s2 self).1) →
  ∀ self, same_players self (Standings.seq s1 s2 self).1.
Proof.
  intros H1 H2 self. unfold Standings.seq.
  specialize (H1 self). destruct (s1 self) as [self1 [e|[]]]; simpl in *;
    [done|].
  eapply same_players_trans; [exact H1 | apply H2].
Qed.

Lemma update_from_result_same_players result self :
  same_players self (update_from_result result self).1.
Proof.
  unfold update_from_result.
  destruct (dict_keys (MatchResult.score result)) as [|a [|b [|c l]]];
    try apply same_players_refl.
  revert self.
  repeat first
    [ apply seq_same_players
    | (intros self; apply update_entry_same_players; by intros [])
    | (intros self; apply same_players_refl)
    | case_bool_decide ].
Qed.

(** X10. No sequence of calls of [update_from_result], whatever the
    results and whether the calls raise or not, adds, removes, reorders
    or renames a player of the ledger. *)
Theorem update_all_same_players
    (self : StandingsManager) (results : list MatchResult.t) :
  dict_keys (standings (update_all self results)) = dict_keys (standings self) ∧
  ∀ p, StandingsData.display_name <$> get_player_data (update_all self results) p
       = StandingsData.display_name <$> get_player_data self p.
Proof.
  change (same_players self (update_all self results)).
  revert self. induction results as [|r results IH]; intros self.
  - apply same_players_refl.
  - simpl. eapply same_players_trans; [|apply IH].
    apply update_from_result_same_players.
Qed.

(** *** One regular update *)

Ltac alter_lookups :=
  repeat first [ rewrite dict_get_alter_eq
               | rewrite dict_get_alter_ne by done ].

Ltac known_key Ha Hb := simpl; alter_lookups; rewrite ?Ha, ?Hb; simpl; eauto.

Ltac run_updates Ha Hb :=
  repeat (rewrite seq_update_entry by known_key Ha Hb; simpl standings);
  try (rewrite update_entry_alter by known_key Ha Hb).

Ltac row_eq :=
  unfold credit, add_played, add_wins, add_draws, add_losses, add_points;
  simpl; repeat f_equal; lia.

(** X11. A result whose score map has two different keys, both in the
    ledger, is booked without an exception: a draw (winner [None] or
    empty) adds a played match, a draw and one point to both rows; a win
    adds a played match, a win and three points to the winner and a
    played match and a loss to the other; a winner who is neither key
    adds a played match to both and nothing else.  The other rows and
    the order of the ledger stay as they are; the score values are not
    looked at. *)
Theorem update_from_result_books
    (self : StandingsManager) (result : MatchResult.t)
    (a b : string) (da db : StandingsData.t) :
  dict_keys (MatchResult.score result) = [a; b] →
  a ≠ b →
  get_player_data self a = Some da →
  get_player_data self b = Some db →
  ∃ self',
    update_from_result result self = (self', inr ()) ∧
    dict_keys (standings self') = dict_keys (standings self) ∧
    get_player_data self' a
      = Some ((booking (MatchResult.winner result) a b).1 da) ∧
    get_player_data self' b
      = Some ((booking (MatchResult.winner result) a b).2 db) ∧
    ∀ p, p ≠ a → p ≠ b → get_player_data self' p = get_player_data self p.
Proof.
  unfold get_player_data. intros Hkeys Hab Ha Hb.
  assert (b ≠ a) as Hba by congruence.
  unfold update_from_result, booking. rewrite Hkeys.
  repeat case_bool_decide; run_updates Ha Hb;
    (eexists; split; [reflexivity|]; simpl;
     split; [by rewrite !dict_keys_alter|];
     split; [|split]);
    try (intros p Hpa Hpb; by alter_lookups);
    alter_lookups; rewrite ?Ha, ?Hb; simpl; destruct da, db; row_eq.
Qed.

Lemma update_from_result_books_witness :
  ∃ self',
    update_from_result
      (MatchResult.mk "R1" "R1M1" (Some "P02") [("P01", 0); ("P02", 3)] None)
      (initialize_player (initialize_player Standings.init "P01" "Ann")
         "P02" "Bob")
    = (self', inr ()) ∧
    dict_keys (standings self') = ["P01"; "P02"] ∧
    get_player_data self' "P01" = Some (StandingsData.mk 1 0 0 1 0 "Ann") ∧
    get_player_data self' "P02" = Some (StandingsData.mk 1 1 0 0 3 "Bob") ∧
    ∀ p, p ≠ "P01" → p ≠ "P02" →
         get_player_data self' p
         = get_player_data
             (initialize_player (initialize_player Standings.init "P01" "Ann")
                "P02" "Bob") p.
Proof.
  apply (update_from_result_books
           (initialize_player (initialize_player Standings.init "P01" "Ann")
              "P02" "Bob")
           (MatchResult.mk "R1" "R1M1" (Some "P02")
              [("P01", 0); ("P02", 3)] None)
           "P01" "P02"
           (StandingsData.mk 0 0 0 0 0 "Ann")
           (StandingsData.mk 0 0 0 0 0 "Bob"));
    [reflexivity | discriminate | reflexivity | reflexivity].
Defined.

(** *** Bookkeeping identities *)

Lemma points_add_up_steps d :
  points_add_up d →
  points_add_up (add_played 1 d) ∧
  points_add_up (add_losses 1 d) ∧
  points_add_up (add_points 1 (add_draws 1 d)) ∧
  points_add_up (add_points 3 (add_wins 1 d)).
Proof. unfold points_add_up. destruct d. simpl. lia. Qed.

(** Both score keys in the ledger (they may be one and the same key). *)
Lemma update_from_result_points_known result self a b :
  dict_keys (MatchResult.score result) = [a; b] →
  is_Some (get_player_data self a) →
  is_Some (get_player_data self b) →
  (∀ p d, get_player_data self p = Some d → points_add_up d) →
  ∀ p d, get_player_data (update_from_result result self).1 p = Some d →
         points_add_up d.
Proof.
  unfold get_player_data. intros Hkeys [da Ha] [db Hb] Hinv p d.
  unfold update_from_result. rewrite Hkeys.
  destruct (decide (a = b)) as [<-|Hab];
    [|assert (b ≠ a) as Hba by congruence];
    repeat case_bool_decide; run_updates Ha Hb; simpl;
    destruct (decide (p = a)) as [->|Hpa];
    try (destruct (decide (p = b)) as [->|Hpb]);
    alter_lookups;
    first
      [ exact (Hinv p d)
      | rewrite ?Ha, ?Hb; simpl; intros [= <-];
        pose proof (Hinv _ _ Ha) as Ia; pose proof (Hinv _ _ Hb) as Ib;
        unfold points_add_up, add_played, add_wins, add_draws, add_losses,
          add_points in *;
        destruct da, db; simpl in *; lia ].
Qed.

Lemma update_from_result_points result self :
  (∀ p d, get_player_data self p = Some d → points_add_up d) →
  ∀ p d, get_player_data (update_from_result result self).1 p = Some d →
         points_add_up d.
Proof.
  intros Hinv.
  destruct (dict_keys (MatchResult.score result)) as [|a [|b [|c l]]] eqn:Hkeys;
    try (unfold update_from_result; rewrite Hkeys; exact Hinv).
  destruct (get_player_data self a) as [da|] eqn:Ha.
  - destruct (get_player_data self b) as [db|] eqn:Hb.
    + apply (update_from_result_points_known result self a b); eauto.
    + unfold get_player_data in *.
      assert (a ≠ b) as Hab by congruence.
      unfold update_from_result. rewrite Hkeys.
      rewrite seq_update_entry by (rewrite Ha; eauto).
      unfold Standings.seq.
      rewrite update_entry_missing
        by (simpl; by rewrite dict_get_alter_ne by congruence).
      simpl. intros p d. destruct (decide (p = a)) as [->|Hpa].
      * rewrite dict_get_alter_eq, Ha. simpl. intros [= <-].
        by apply points_add_up_steps, (Hinv a).
      * rewrite dict_get_alter_ne by done. apply Hinv.
  - unfold get_player_data in *. unfold update_from_result. rewrite Hkeys.
    unfold Standings.seq. rewrite update_entry_missing by done. exact Hinv.
Qed.

(** X12. In every row of the ledger the points are three times the wins
    plus the draws, and no sequence of calls of [update_from_result]
    breaks this, whatever the results are and whether the calls raise or
    not; it holds in particular from freshly initialised rows on. *)
Theorem update_all_points_add_up
    (self : StandingsManager) (results : list MatchResult.t) :
  (∀ p d, get_player_data self p = Some d → points_add_up d) →
  ∀ p d, get_player_data (update_all self results) p = Some d →
         points_add_up d.
Proof.
  revert self. induction results as [|r results IH]; intros self Hinv;
    [exact Hinv|].
  simpl. apply IH. by apply update_from_result_points.
Qed.

Lemma update_all_points_add_up_witness :
  get_player_data
    (update_all
       (initialize_player (initialize_player Standings.init "P01" "Ann")
          "P02" "Bob")
       [MatchResult.mk "R1" "R1M1" (Some "P02") [("P01", 0); ("P02", 3)] None;
        MatchResult.mk "R1" "R1M2" (Some "P09") [("P01", 3); ("P02", 0)] None;
        MatchResult.mk "R1" "R1M3" None [("P02", 1); ("P07", 1)] None])
    "P02" = Some (StandingsData.mk 3 1 0 0 3 "Bob") ∧
  points_add_up (StandingsData.mk 3 1 0 0 3 "Bob").
Proof.
  split; [reflexivity|].
  apply (update_all_points_add_up
           (initialize_player (initialize_player Standings.init "P01" "Ann")
              "P02" "Bob")
           [MatchResult.mk "R1" "R1M1" (Some "P02")
              [("P01", 0); ("P02", 3)] None;
            MatchResult.mk "R1" "R1M2" (Some "P09")
              [("P01", 3); ("P02", 0)] None;
            MatchResult.mk "R1" "R1M3" None [("P02", 1); ("P07", 1)] None]
           ltac:(intros p d; unfold get_player_data; simpl;
                 repeat case_decide; intros [= <-]; reflexivity)
           "P02" (StandingsData.mk 3 1 0 0 3 "Bob")).
  reflexivity.
Defined.

Lemma get_player_data_is_Some self p :
  is_Some (get_player_data self p) ↔ p ∈ dict_keys (standings self).
Proof.
  unfold get_player_data. rewrite <-not_eq_None_Some, dict_get_None.
  destruct (decide (p ∈ dict_keys (standings self))); tauto.
Qed.

Lemma regular_same_players self self' result :
  same_players self self' → regular self result → regular self' result.
Proof.
  intros [Hkeys _] (a & b & Hk & Hab & Ha & Hb & Hw).
  exists a, b. rewrite !get_player_data_is_Some, Hkeys in *. done.
Qed.

(** One regular result: the row of a player named by it gets one more
    played match and keeps the sum of its wins, draws and losses equal to
    its played matches; the other rows are untouched. *)
Lemma update_from_result_regular result self p d :
  regular self result →
  get_player_data self p = Some d →
  ∃ d',
    get_player_data (update_from_result result self).1 p = Some d' ∧
    StandingsData.played d'
    = StandingsData.played d
      + (if decide (p ∈ dict_keys (MatchResult.score result)) then 1 else 0) ∧
    (played_adds_up d → played_adds_up d').
Proof.
  unfold get_player_data.
  intros (a & b & Hkeys & Hab & [da Ha] & [db Hb] & Hw) Hp.
  unfold get_player_data in Ha, Hb.
  assert (b ≠ a) as Hba by congruence.
  unfold update_from_result. rewrite Hkeys.
  assert (∀ w, MatchResult.winner result = w →
               w = None ∨ w = Some "" ∨ w = Some a ∨ w = Some b) as Hw'
    by (by intros w <-).
  repeat case_bool_decide;
    try (exfalso; specialize (Hw' _ eq_refl); intuition congruence);
    run_updates Ha Hb; simpl;
    (destruct (decide (p = a)) as [->|Hpa];
     [|destruct (decide (p = b)) as [->|Hpb]]);
    alter_lookups; rewrite ?Ha, ?Hb, ?Hp; simpl;
    eexists; (split; [reflexivity|]);
    simplify_eq;
    (split;
     [ first [ rewrite decide_True by (set_unfold; tauto)
             | rewrite decide_False by (set_unfold; intuition congruence) ]
     | ]);
    unfold played_adds_up, add_played, add_wins, add_draws, add_losses,
      add_points;
    repeat match goal with x : StandingsData.t |- _ => destruct x end;
    simpl; lia.
Qed.

Lemma reports_naming_cons p r results :
  reports_naming p (r :: results)
  = (if decide (p ∈ dict_keys (MatchResult.score r)) then 1 else 0)
    + reports_naming p results.
Proof.
  unfold reports_naming. rewrite filter_cons.
  destruct (decide (p ∈ dict_keys (MatchResult.score r))); simpl; lia.
Qed.

(** X13. After any sequence of regular results (two different players of
    the ledger, winner nobody or one of the two) every player's played
    counter has grown by the number of results that name the player, and
    a row whose played matches were the sum of its wins, draws and losses
    still has that property.  In particular a result reported twice is
    counted twice. *)
Theorem update_all_regular
    (self : StandingsManager) (results : list MatchResult.t)
    (p : string) (d : StandingsData.t) :
  Forall (regular self) results →
  get_player_data self p = Some d →
  ∃ d',
    get_player_data (update_all self results) p = Some d' ∧
    StandingsData.played d'
    = StandingsData.played d + reports_naming p results ∧
    (played_adds_up d → played_adds_up d').
Proof.
  revert self d. induction results as [|r results IH]; intros self d Hreg Hp.
  - exists d. split; [done|]. split; [|done].
    unfold reports_naming. simpl. lia.
  - apply Forall_cons in Hreg as [Hr Hreg].
    destruct (update_from_result_regular r self p d Hr Hp)
      as (d1 & Hp1 & Hplayed1 & Hsum1).
    destruct (IH (update_from_result r self).1 d1) as (d' & Hp' & Hplayed' & Hsum').
    + eapply Forall_impl; [exact Hreg|]. intros r'.
      apply regular_same_players, update_from_result_same_players.
    + done.
    + exists d'. split; [done|]. split; [|tauto].
      rewrite reports_naming_cons. lia.
Qed.

Lemma update_all_regular_witness :
  ∃ d',
    get_player_data
      (update_all
         (initialize_player (initialize_player Standings.init "P01" "Ann")
            "P02" "Bob")
         [MatchResult.mk "R1" "R1M1" (Some "P02") [("P01", 0); ("P02", 3)] None;
          MatchResult.mk "R1" "R1M1" (Some "P02") [("P01", 0); ("P02", 3)] None])
      "P02" = Some d' ∧
    StandingsData.played d'
    = StandingsData.played (StandingsData.mk 0 0 0 0 0 "Bob")
      + reports_naming "P02"
          [MatchResult.mk "R1" "R1M1" (Some "P02")
             [("P01", 0); ("P02", 3)] None;
           MatchResult.mk "R1" "R1M1" (Some "P02")
             [("P01", 0); ("P02", 3)] None] ∧
    (played_adds_up (StandingsData.mk 0 0 0 0 0 "Bob") → played_adds_up d').
Proof.
  apply (update_all_regular
           (initialize_player (initialize_player Standings.init "P01" "Ann")
              "P02" "Bob")).
  - repeat constructor;
      (exists "P01", "P02"; split; [reflexivity|]; split; [discriminate|];
       split; [by eexists|]; split; [by eexists|]; auto).
  - reflexivity.
Defined.

Example reported_twice_counted_twice :
  get_player_data
    (update_all
       (initialize_player (initialize_player Standings.init "P01" "Ann")
          "P02" "Bob")
       [MatchResult.mk "R1" "R1M1" (Some "P02") [("P01", 0); ("P02", 3)] None;
        MatchResult.mk "R1" "R1M1" (Some "P02") [("P01", 0); ("P02", 3)] None])
    "P02" = Some (StandingsData.mk 2 2 0 0 6 "Bob").
Proof. vm_compute. reflexivity. Qed.

(** *** New rows *)

Lemma dict_keys_set_fresh {V} (d : pydict V) k v :
  k ∉ dict_keys d → dict_keys (dict_set d k v) = dict_keys d ++ [k].
Proof.
  unfold dict_keys. induction d as [|[k0 v0] d IH]; simpl; [done|].
  rewrite not_elem_of_cons. intros [Hne Hnin].
  rewrite decide_False by done. simpl. f_equal. by apply IH.
Qed.

(** X14. [initialize_player] gives the player a row of zeros under the
    given name, which [get_player_data] returns; the rows of the other
    players are untouched.  A player who is new goes to the end of the
    ledger; one who is in the ledger already keeps the place and loses
    the counters. *)
Theorem initialize_player_row (self : StandingsManager) (p name : string) :
  get_player_data (initialize_player self p name) p
    = Some (StandingsData.mk 0 0 0 0 0 name) ∧
  (∀ q, q ≠ p →
     get_player_data (initialize_player self p name) q
     = get_player_data self q) ∧
  dict_keys (standings (initialize_player self p name))
    = (if decide (p ∈ dict_keys (standings self))
       then dict_keys (standings self)
       else dict_keys (standings self) ++ [p]).
Proof.
  unfold get_player_data, initialize_player. simpl. split; [|split].
  - apply dict_get_set_eq.
  - intros q Hq. by apply dict_get_set_ne.
  - case_decide as Hin.
    + apply dict_keys_set_present.
      apply not_eq_None_Some. by intros Hnone%dict_get_None.
    + by apply dict_keys_set_fresh.
Qed.

Example get_player_data_unknown :
  get_player_data (initialize_player Standings.init "P01" "Ann") "P02" = None.
Proof. reflexivity. Qed.

(** ** The roster kept by the registration manager *)

Lemma roster_init : roster Registration.init 0 0.
Proof. repeat split; try done; lia. Qed.

Lemma dict_get_Some_key {V} (d : pydict V) k v :
  dict_get d k = Some v → k ∈ dict_keys d.
Proof.
  intros Hk. destruct (decide (k ∈ dict_keys d)) as [|Hnin]; [done|].
  apply dict_get_None in Hnin. congruence.
Qed.

Lemma dict_get_set_fresh {V} (d : pydict V) new v k x :
  new ∉ dict_keys d → dict_get d k = Some x →
  dict_get (dict_set d new v) k = Some x.
Proof.
  intros Hnew Hk. rewrite dict_get_set_ne; [done|].
  intros <-. by apply Hnew, (dict_get_Some_key _ _ x).
Qed.

Lemma dict_get_set_inv {V} (d : pydict V) new v k x :
  dict_get (dict_set d new v) k = Some x →
  (k = new ∧ x = v) ∨ dict_get d k = Some x.
Proof.
  destruct (decide (new = k)) as [->|Hne].
  - rewrite dict_get_set_eq. intros [= ->]. auto.
  - rewrite dict_get_set_ne by done. auto.
Qed.

Ltac id_facts := simpl; set_unfold; intuition (discriminate || auto).

(** One registration message keeps the roster in shape; an accepted one
    stores its participant under a new id and loses nobody. *)
Lemma roster_register self nr np a :
  roster self nr np →
  ∃ nr' np',
    roster (register self a).1 nr' np' ∧
    (∀ id p, dict_get (referees self) id = Some p →
             dict_get (referees (register self a).1) id = Some p) ∧
    (∀ id p, dict_get (players self) id = Some p →
             dict_get (players (register self a).1) id = Some p) ∧
    (∀ resp, (register self a).2 = Some resp →
       RegistrationResponse.auth_token resp = token a ∧
       match who a with
       | Referee =>
           RegistrationResponse.participant_id resp
             ∈ issued_ids Referee ∧
           dict_get (referees (register self a).1)
                    (RegistrationResponse.participant_id resp)
           = Some (participant_of a (RegistrationResponse.participant_id resp))
       | Player =>
           RegistrationResponse.participant_id resp
             ∈ issued_ids Player ∧
           dict_get (players (register self a).1)
                    (RegistrationResponse.participant_id resp)
           = Some (participant_of a (RegistrationResponse.participant_id resp))
       end).
Proof.
  intros (Hrc & Hpc & Hnr & Hnp & Hrk & Hpk & Hrid & Hpid).
  destruct format_02d_small as (F1 & F2 & F3 & F4).
  unfold register, register_referee, register_player.
  destruct (who a) eqn:Hwho.
  - rewrite Hrc.
    assert (nr = 0 ∨ nr = 1 ∨ nr = 2)%nat as [->|[->| ->]] by lia;
      simpl Z.of_nat; simpl Z.geb; cbv iota.
    1,2: change (0 + 1) with 1; change (1 + 1) with 2; rewrite ?F1, ?F2.
    1: exists 1%nat, np. 2: exists 2%nat, np. 3: exists 2%nat, np.
    1,2: (split; [|split; [|split]]);
      [ repeat split; simpl; try done; try lia;
        [ rewrite dict_keys_set_fresh by (rewrite Hrk; id_facts);
          by rewrite Hrk
        | intros id p [[-> ->]|Hold]%dict_get_set_inv; [done|by apply Hrid] ]
      | intros id p Hid; simpl;
        apply dict_get_set_fresh; [rewrite Hrk; id_facts | done]
      | done
      | intros resp [= <-]; simpl; split; [done|];
        split; [id_facts | apply dict_get_set_eq] ].
    split; [|done]. repeat split; try done; lia.
  - rewrite Hpc.
    assert (np = 0 ∨ np = 1 ∨ np = 2 ∨ np = 3 ∨ np = 4)%nat
      as [->|[->|[->|[->| ->]]]] by lia;
      simpl Z.of_nat; simpl Z.geb; cbv iota.
    1,2,3,4: change (0 + 1) with 1; change (1 + 1) with 2;
      change (2 + 1) with 3; change (3 + 1) with 4; rewrite ?F1, ?F2, ?F3, ?F4.
    1: exists nr, 1%nat. 2: exists nr, 2%nat. 3: exists nr, 3%nat.
    4: exists nr, 4%nat. 5: exists nr, 4%nat.
    1,2,3,4: (split; [|split; [|split]]);
      [ repeat split; simpl; try done; try lia;
        [ rewrite dict_keys_set_fresh by (rewrite Hpk; id_facts);
          by rewrite Hpk
        | intros id p [[-> ->]|Hold]%dict_get_set_inv; [done|by apply Hpid] ]
      | done
      | intros id p Hid; simpl;
        apply dict_get_set_fresh; [rewrite Hpk; id_facts | done]
      | intros resp [= <-]; simpl; split; [done|];
        split; [id_facts | apply dict_get_set_eq] ].
    split; [|done]. repeat split; try done; lia.
Qed.

Lemma after_cons self a attempts :
  after self (a :: attempts) = after (register self a).1 attempts.
Proof. done. Qed.

Lemma after_app self l1 l2 : after self (l1 ++ l2) = after (after self l1) l2.
Proof. unfold after. by rewrite foldl_app. Qed.

(** Registrations never lose or replace a stored participant. *)
Lemma roster_after attempts : ∀ self nr np,
  roster self nr np →
  ∃ nr' np',
    roster (after self attempts) nr' np' ∧
    (∀ id p, dict_get (referees self) id = Some p →
             dict_get (referees (after self attempts)) id = Some p) ∧
    (∀ id p, dict_get (players self) id = Some p →
             dict_get (players (after self attempts)) id = Some p).
Proof.
  induction attempts as [|a attempts IH]; intros self nr np Hroster.
  - exists nr, np. split; [exact Hroster|]. split; intros; done.
  - rewrite after_cons.
    destruct (roster_register self nr np a Hroster)
      as (nr1 & np1 & Hroster1 & Hr1 & Hp1 & _).
    destruct (IH _ _ _ Hroster1) as (nr' & np' & Hroster' & Hr' & Hp').
    exists nr', np'. split; [done|]. split; eauto.
Qed.

(** X15. After any sequence of registration messages, [all_registered]
    is true exactly when at least two of them came from referees and at
    least four from players; later messages cannot make it false
    again. *)
Theorem all_registered_after (attempts : list attempt) :
  all_registered (after Registration.init attempts)
  = bool_decide (2 ≤ attempts_of Referee attempts ∧
                 4 ≤ attempts_of Player attempts).
Proof.
  destruct (counters_after attempts) as [Hr Hp].
  unfold all_registered. rewrite Hr, Hp.
  pose proof (attempts_of_nonneg Referee attempts).
  pose proof (attempts_of_nonneg Player attempts).
  apply eq_true_iff_eq.
  rewrite andb_true_iff, !bool_decide_eq_true. lia.
Qed.

Lemma get_participant_stored self nr np id p :
  roster self nr np →
  get_participant self id = Some p → Participant.participant_id p = id.
Proof.
  intros (_ & _ & _ & _ & _ & _ & Hrid & Hpid). unfold get_participant.
  destruct (String.prefix "REF" id); [apply Hrid|].
  destruct (String.prefix "P" id); [apply Hpid | done].
Qed.

(** X16. After any sequence of registration messages the two maps hold
    exactly the accepted participants: the referee ids are the first of
    REF01, REF02 and the player ids, as [get_all_player_ids] lists them,
    the first of P01, ..., P04, as many as the capped numbers of
    attempts and in that order; and whatever [get_participant] returns
    for an id carries that id. *)
Theorem roster_after_registrations (attempts : list attempt) :
  let self := after Registration.init attempts in
  dict_keys (referees self)
    = take (Z.to_nat (attempts_of Referee attempts `min` 2))
           (issued_ids Referee) ∧
  get_all_player_ids self
    = take (Z.to_nat (attempts_of Player attempts `min` 4))
           (issued_ids Player) ∧
  ∀ id p, get_participant self id = Some p →
          Participant.participant_id p = id.
Proof.
  intros self. subst self.
  destruct (roster_after attempts Registration.init 0 0 roster_init)
    as (nr & np & Hroster & _).
  destruct (counters_after attempts) as [Hr Hp].
  pose proof Hroster as (Hrc & Hpc & _ & _ & Hrk & Hpk & _).
  unfold get_all_player_ids.
  rewrite <-Hr, <-Hp, Hrc, Hpc, !Nat2Z.id.
  split; [done|]. split; [done|].
  intros id p. by apply (get_participant_stored _ nr np).
Qed.

(** X17. An accepted registration can be looked up for good: after any
    further registration messages [get_participant] still returns, for
    the id that was handed out, the participant with the name, endpoint
    and token of that registration; [validate_token] accepts the token
    that was handed out and no other; and the endpoint getter of the
    role returns the registered endpoint. *)
Theorem issued_token_stays_valid
    (earlier later : list attempt) (a : attempt)
    (resp : RegistrationResponse.t) :
  (register (after Registration.init earlier) a).2 = Some resp →
  let final := after Registration.init (earlier ++ a :: later) in
  let id := RegistrationResponse.participant_id resp in
  get_participant final id = Some (participant_of a id) ∧
  validate_token final id (RegistrationResponse.auth_token resp) = true ∧
  (∀ t, t ≠ RegistrationResponse.auth_token resp →
        validate_token final id t = false) ∧
  match who a with
  | Referee => get_referee_endpoint final id
  | Player => get_player_endpoint final id
  end = Some (RegistrationRequest.contact_endpoint (request a)).
Proof.
  intros Hresp final id. subst final id.
  rewrite after_app, after_cons.
  destruct (roster_after earlier Registration.init 0 0 roster_init)
    as (nr & np & Hroster & _).
  destruct (roster_register _ nr np a Hroster)
    as (nr1 & np1 & Hroster1 & _ & _ & Hnew).
  destruct (Hnew resp Hresp) as [Htok Hstored].
  destruct (roster_after later _ nr1 np1 Hroster1)
    as (nr2 & np2 & _ & Hkeepr & Hkeepp).
  set (final := after _ later) in *.
  set (id := RegistrationResponse.participant_id resp) in *.
  assert (get_participant final id = Some (participant_of a id)) as Hget.
  { unfold get_participant. destruct (who a).
    - destruct Hstored as [Hid Hst]. apply Hkeepr in Hst.
      assert (id = "REF01" ∨ id = "REF02") as [-> | ->]
        by (revert Hid; id_facts); done.
    - destruct Hstored as [Hid Hst]. apply Hkeepp in Hst.
      assert (id = "P01" ∨ id = "P02" ∨ id = "P03" ∨ id = "P04")
        as [->|[->|[->| ->]]] by (revert Hid; id_facts); done. }
  split; [done|]. unfold validate_token. rewrite Hget. simpl.
  split; [by apply bool_decide_eq_true_2|].
  split; [intros t Ht; apply bool_decide_eq_false_2; congruence|].
  unfold get_referee_endpoint, get_player_endpoint.
  destruct (who a); destruct Hstored as [_ Hst].
  - apply Hkeepr in Hst. by rewrite Hst.
  - apply Hkeepp in Hst. by rewrite Hst.
Qed.

Lemma issued_token_stays_valid_witness :
  get_participant (after Registration.init sample_messages) "P01"
    = Some (Participant.mk "P01" "n" "http://h/MCP" "t2" 2) ∧
  validate_token (after Registration.init sample_messages) "P01" "t2" = true ∧
  (∀ t, t ≠ "t2" →
        validate_token (after Registration.init sample_messages) "P01" t
        = false) ∧
  get_player_endpoint (after Registration.init sample_messages) "P01"
    = Some "http://h/MCP".
Proof.
  apply (issued_token_stays_valid
           [mkAttempt Referee sample_request "t1" 1]
           [mkAttempt Referee sample_request "t3" 3;
            mkAttempt Referee sample_request "t4" 4;
            mkAttempt Player sample_request "t5" 5;
            mkAttempt Player sample_request "t6" 6;
            mkAttempt Player sample_request "t7" 7;
            mkAttempt Player sample_request "t8" 8]
           (mkAttempt Player sample_request "t2" 2)
           (RegistrationResponse.mk "ACCEPTED" "P01" "t2")).
  reflexivity.
Defined.

Example validate_token_edges :
  validate_token (after Registration.init sample_messages) "REF03" "t4" = false ∧
  validate_token (after Registration.init sample_messages) "X01" "t1" = false ∧
  validate_token Registration.init "P01" "" = false ∧
  get_participant (after Registration.init sample_messages) "REF01"
    = Some (Participant.mk "REF01" "n" "http://h/MCP" "t1" 1).
Proof. vm_compute. auto. Qed.

(** ** Players and referee together *)

Import PlayerLogic Referee.

Lemma mod_2_cases n : n `mod` 2 = 0 ∨ n `mod` 2 = 1.
Proof. pose proof (Z.mod_pos_bound n 2). lia. Qed.

(** X18. The choice of [make_move] is the parity that the referee's
    [get_parity] gives to the same number, for every integer, and the
    number is returned unchanged. *)
Theorem make_move_is_parity (n : Z) :
  make_move n = (n, get_parity n) ∧
  (get_parity n = "odd" ↔ n `mod` 2 = 1) ∧
  (get_parity n = "even" ↔ n `mod` 2 = 0).
Proof.
  unfold make_move, get_parity.
  destruct (mod_2_cases n) as [H|H]; rewrite H; simpl; repeat split;
    done || lia.
Qed.

Lemma lower_parity n : lower (get_parity n) = get_parity n.
Proof. destruct (get_parity_cases n) as [-> | ->]; reflexivity. Qed.

Lemma truthy_parity n : truthy (Some (get_parity n)) = true.
Proof. destruct (get_parity_cases n) as [-> | ->]; reflexivity. Qed.

Lemma get_parity_eq n m : get_parity n = get_parity m ↔ n `mod` 2 = m `mod` 2.
Proof.
  unfold get_parity.
  destruct (mod_2_cases n) as [Hn|Hn], (mod_2_cases m) as [Hm|Hm];
    rewrite Hn, Hm; simpl; split; done || lia.
Qed.

(** X19. When both players answer with the choice of [make_move], made
    from their own numbers [nA] and [nB], the referee declares a draw
    (one point each) exactly when the two numbers have the same parity;
    otherwise the winner, three to nothing, is the player whose own
    number has the parity of the number drawn by the referee. *)
Theorem reference_players_match (A B : string) (nA nB n : Z) :
  A ≠ B →
  let r := calculate_result A B (Some (make_move nA).2)
             (Some (make_move nB).2) n in
  (nA `mod` 2 = nB `mod` 2 →
     winner_of r = None ∧ score_of r = [(A, 1); (B, 1)]) ∧
  (nA `mod` 2 ≠ nB `mod` 2 → nA `mod` 2 = n `mod` 2 →
     winner_of r = Some A ∧ score_of r = [(A, 3); (B, 0)]) ∧
  (nA `mod` 2 ≠ nB `mod` 2 → nB `mod` 2 = n `mod` 2 →
     winner_of r = Some B ∧ score_of r = [(A, 0); (B, 3)]).
Proof.
  intros Hne r. subst r.
  destruct (make_move_is_parity nA) as [-> _].
  destruct (make_move_is_parity nB) as [-> _]. simpl.
  unfold calculate_result. rewrite !truthy_parity. simpl.
  unfold calculate_match_result, winner_of, score_of.
  rewrite !lower_parity. split; [|split].
  - intros Heq%get_parity_eq. rewrite decide_True by done. simpl.
    by rewrite dict_lit_two.
  - intros Hdiff Hn.
    rewrite decide_False by (by rewrite get_parity_eq).
    rewrite decide_True by (by rewrite get_parity_eq). simpl.
    by rewrite dict_lit_two.
  - intros Hdiff Hn.
    rewrite decide_False by (by rewrite get_parity_eq).
    rewrite decide_False by (rewrite get_parity_eq; lia). simpl.
    by rewrite dict_lit_two.
Qed.

Lemma reference_players_match_witness :
  let r := calculate_result "P01" "P02" (Some (make_move 3).2)
             (Some (make_move 8).2) 5 in
  (3 `mod` 2 = 8 `mod` 2 →
     winner_of r = None ∧ score_of r = [("P01", 1); ("P02", 1)]) ∧
  (3 `mod` 2 ≠ 8 `mod` 2 → 3 `mod` 2 = 5 `mod` 2 →
     winner_of r = Some "P01" ∧ score_of r = [("P01", 3); ("P02", 0)]) ∧
  (3 `mod` 2 ≠ 8 `mod` 2 → 8 `mod` 2 = 5 `mod` 2 →
     winner_of r = Some "P02" ∧ score_of r = [("P01", 0); ("P02", 3)]).
Proof.
  apply (reference_players_match "P01" "P02" 3 8 5). discriminate.
Defined.

(** X20. For two choices that are parities the outcome does not depend
    on who is called player A: exchanging the two players gives the same
    winner and the same score for each player. *)
Theorem calculate_match_result_roles (A cA B cB : string) (n : Z) :
  A ≠ B →
  lower cA ∈ ["odd"; "even"] →
  lower cB ∈ ["odd"; "even"] →
  let r1 := calculate_match_result A cA B cB n in
  let r2 := calculate_match_result B cB A cA n in
  winner_of r1 = winner_of r2 ∧
  ∀ p, dict_get (score_of r1) p = dict_get (score_of r2) p.
Proof.
  intros Hne HcA HcB r1 r2. subst r1 r2.
  assert (B ≠ A) as Hne' by congruence.
  unfold calculate_match_result, winner_of, score_of.
  set_unfold.
  destruct (get_parity_cases n) as [Hn|Hn]; rewrite Hn;
    destruct HcA as [->|[->|[]]], HcB as [->|[->|[]]]; simpl;
    rewrite !dict_lit_two by done; (split; [done|]); intros p; simpl;
    repeat case_decide; congruence.
Qed.

Lemma calculate_match_result_roles_witness :
  let r1 := calculate_match_result "P01" "Odd" "P02" "even" 4 in
  let r2 := calculate_match_result "P02" "even" "P01" "Odd" 4 in
  winner_of r1 = winner_of r2 ∧
  ∀ p, dict_get (score_of r1) p = dict_get (score_of r2) p.
Proof.
  apply (calculate_match_result_roles "P01" "Odd" "P02" "even" 4);
    [discriminate | vm_compute; set_unfold; auto
    | vm_compute; set_unfold; auto].
Defined.

(** With a choice that is no parity the roles matter. *)
Example calculate_match_result_roles_matter :
  winner_of (calculate_match_result "P01" "odd" "P02" "maybe" 4) = Some "P02" ∧
  winner_of (calculate_match_result "P02" "maybe" "P01" "odd" 4) = Some "P01" ∧
  winner_of (calculate_match_result "P01" "odd" "P02" "maybe" 5) = Some "P01" ∧
  winner_of (calculate_match_result "P02" "maybe" "P01" "odd" 5) = Some "P01".
Proof. vm_compute. auto. Qed.

(** X21. Step 3 of [conduct_match], for different player ids: the rules
    of the game are applied only when both answers are non-empty
    strings.  With no answer from either player nobody wins, 0 to 0;
    with an answer from one player only that player wins 3 to 0; and
    when both answered but at least one answer is the empty string,
    player A wins 3 to 0, whoever sent the empty answer. *)
Theorem calculate_result_cases
    (A B : string) (choice_A choice_B : option string) (n : Z) :
  A ≠ B →
  let r := calculate_result A B choice_A choice_B n in
  (∀ cA cB, choice_A = Some cA → choice_B = Some cB → cA ≠ "" → cB ≠ "" →
     r = calculate_match_result A cA B cB n) ∧
  (choice_A = None → choice_B = None →
     winner_of r = None ∧ score_of r = [(A, 0); (B, 0)]) ∧
  (choice_A = None → choice_B ≠ None →
     winner_of r = Some B ∧ score_of r = [(A, 0); (B, 3)]) ∧
  (choice_A ≠ None → choice_B = None →
     winner_of r = Some A ∧ score_of r = [(A, 3); (B, 0)]) ∧
  (choice_A ≠ None → choice_B ≠ None →
   choice_A = Some "" ∨ choice_B = Some "" →
     winner_of r = Some A ∧ score_of r = [(A, 3); (B, 0)]).
Proof.
  intros Hne r. subst r. unfold calculate_result.
  split; [|split; [|split; [|split]]].
  - intros cA cB -> -> HA HB. simpl.
    apply String.eqb_neq in HA, HB. by rewrite HA, HB.
  - intros -> ->. simpl. unfold handle_player_timeout, winner_of, score_of.
    simpl. by rewrite dict_lit_two.
  - intros -> HB. destruct choice_B as [cB|]; [|done]. simpl.
    unfold handle_player_timeout, winner_of, score_of. simpl.
    by rewrite dict_lit_two.
  - intros HA ->. destruct choice_A as [cA|]; [|done]. simpl.
    rewrite andb_false_r.
    unfold handle_player_timeout, winner_of, score_of. simpl.
    by rewrite dict_lit_two.
  - intros HA HB Hempty.
    destruct choice_A as [cA|]; [|done]. destruct choice_B as [cB|]; [|done].
    assert (truthy (Some cA) && truthy (Some cB) = false) as ->.
    { destruct Hempty as [[= ->]|[= ->]]; simpl; [done|].
      apply andb_false_r. }
    unfold handle_player_timeout, winner_of, score_of. simpl.
    by rewrite dict_lit_two.
Qed.

Lemma calculate_result_cases_witness :
  let r := calculate_result "P01" "P02" (Some "") (Some "odd") 3 in
  (∀ cA cB, Some "" = Some cA → Some "odd" = Some cB → cA ≠ "" → cB ≠ "" →
     r = calculate_match_result "P01" cA "P02" cB 3) ∧
  (Some "" = None → Some "odd" = None →
     winner_of r = None ∧ score_of r = [("P01", 0); ("P02", 0)]) ∧
  (Some "" = None → Some "odd" ≠ None →
     winner_of r = Some "P02" ∧ score_of r = [("P01", 0); ("P02", 3)]) ∧
  (Some "" ≠ None → Some "odd" = None →
     winner_of r = Some "P01" ∧ score_of r = [("P01", 3); ("P02", 0)]) ∧
  (Some "" ≠ None → Some "odd" ≠ None →
   Some "" = Some "" ∨ Some "odd" = Some "" →
     winner_of r = Some "P01" ∧ score_of r = [("P01", 3); ("P02", 0)]).
Proof.
  apply (calculate_result_cases "P01" "P02" (Some "") (Some "odd") 3).
  discriminate.
Defined.

Example empty_answer_beats_parity :
  winner_of (calculate_result "P01" "P02" (Some "") (Some "odd") 3)
  = Some "P01".
Proof. reflexivity. Qed.

(** The four shapes of an outcome. *)
Lemma calculate_result_shape A B choice_A choice_B n :
  A ≠ B →
  ∃ w s det,
    calculate_result A B choice_A choice_B n = (w, s, det) ∧
    ((choice_A = None ∧ choice_B = None ∧ w = None ∧ s = [(A, 0); (B, 0)]) ∨
     (¬ (choice_A = None ∧ choice_B = None) ∧
      ((w = None ∧ s = [(A, 1); (B, 1)]) ∨
       (w = Some A ∧ s = [(A, 3); (B, 0)]) ∨
       (w = Some B ∧ s = [(A, 0); (B, 3)])))).
Proof.
  intros Hne. unfold calculate_result.
  destruct (truthy choice_A && truthy choice_B) eqn:Hboth.
  - assert (¬ (choice_A = None ∧ choice_B = None)) as Hsome.
    { intros [-> _]. done. }
    unfold calculate_match_result.
    repeat case_decide; simpl; rewrite dict_lit_two by done;
      eexists _, _, _; (split; [reflexivity|]); right; split; auto.
  - unfold handle_player_timeout.
    destruct choice_A as [cA|], choice_B as [cB|]; simpl;
      rewrite dict_lit_two by done;
      eexists _, _, _; (split; [reflexivity|]);
      first [ left; done | right; split; [intros [? ?]; done | auto] ].
Qed.

(** X22. From the referee's report to the standings, for two different
    non-empty player ids that are both in the ledger: the report of any
    match is booked without an exception, and each player's points grow
    by the value the report's score map gives that player, except when
    neither player answered: the score map then says 0 and 0, but the
    report has no winner and is booked as a draw, one point each. *)
Theorem match_report_booked
    (self : StandingsManager) (round_id match_id A B : string)
    (choice_A choice_B : option string) (n : Z) (dA dB : StandingsData.t) :
  A ≠ B → A ≠ "" → B ≠ "" →
  get_player_data self A = Some dA →
  get_player_data self B = Some dB →
  let report := match_report round_id match_id A B choice_A choice_B n in
  ∃ self' dA' dB',
    update_from_result report self = (self', inr ()) ∧
    get_player_data self' A = Some dA' ∧
    get_player_data self' B = Some dB' ∧
    match choice_A, choice_B with
    | None, None =>
        MatchResult.score report = [(A, 0); (B, 0)] ∧
        StandingsData.points dA' = StandingsData.points dA + 1 ∧
        StandingsData.points dB' = StandingsData.points dB + 1
    | _, _ =>
        dict_get (MatchResult.score report) A
          = Some (StandingsData.points dA' - StandingsData.points dA) ∧
        dict_get (MatchResult.score report) B
          = Some (StandingsData.points dB' - StandingsData.points dB)
    end.
Proof.
  intros Hne HA0 HB0 HA HB report. subst report.
  unfold get_player_data in *.
  assert (B ≠ A) as Hne' by congruence.
  destruct (calculate_result_shape A B choice_A choice_B n Hne)
    as (w & s & det & Hcalc & Hshape).
  unfold match_report. rewrite Hcalc.
  unfold create_result_report, update_from_result. simpl.
  pose proof HA0 as EA. pose proof HB0 as EB.
  apply String.eqb_neq in EA, EB.
  destruct Hshape as [(-> & -> & -> & ->)|[Hsome [(-> & ->)|[(-> & ->)|(-> & ->)]]]];
    simpl; rewrite ?EA, ?EB; simpl;
    repeat (case_bool_decide; try (exfalso; intuition congruence));
    run_updates HA HB;
    (eexists _, _, _; split; [reflexivity|]; simpl; alter_lookups;
     rewrite ?HA, ?HB; simpl; split; [reflexivity|]; split; [reflexivity|]);
    try (destruct choice_A, choice_B; try (exfalso; by apply Hsome));
    unfold add_played, add_wins, add_draws, add_losses, add_points;
    destruct dA, dB; simpl; repeat split;
    repeat first [ rewrite decide_True by done
                 | rewrite decide_False by done ];
    first [lia | f_equal; lia].
Qed.

Lemma match_report_booked_witness :
  ∃ self' dA' dB',
    update_from_result
      (match_report "R1" "R1M1" "P01" "P02" None None 7)
      (initialize_player (initialize_player Standings.init "P01" "Ann")
         "P02" "Bob")
    = (self', inr ()) ∧
    get_player_data self' "P01" = Some dA' ∧
    get_player_data self' "P02" = Some dB' ∧
    MatchResult.score (match_report "R1" "R1M1" "P01" "P02" None None 7)
      = [("P01", 0); ("P02", 0)] ∧
    StandingsData.points dA' = 0 + 1 ∧
    StandingsData.points dB' = 0 + 1.
Proof.
  apply (match_report_booked
           (initialize_player (initialize_player Standings.init "P01" "Ann")
              "P02" "Bob")
           "R1" "R1M1" "P01" "P02" None None 7
           (StandingsData.mk 0 0 0 0 0 "Ann")
           (StandingsData.mk 0 0 0 0 0 "Bob"));
    [discriminate | discriminate | discriminate | reflexivity | reflexivity].
Defined.

(** A double forfeit in the standings. *)
Example double_forfeit_is_booked_as_draw :
  (update_from_result
     (match_report "R1" "R1M1" "P01" "P02" None None 7)
     (initialize_player (initialize_player Standings.init "P01" "Ann")
        "P02" "Bob")).1
  = Standings.mkManager [("P01", StandingsData.mk 1 0 1 0 1 "Ann");
                         ("P02", StandingsData.mk 1 0 1 0 1 "Bob")].
Proof. vm_compute. reflexivity. Qed.

(** ** The request handlers of the league manager *)

Import Server.

Lemma mcp_endpoint_registration st msg :
  registration_mgr (mcp_endpoint st msg).1.1
  = match attempt_of msg with
    | Some a => (register (registration_mgr st) a).1
    | None => registration_mgr st
    end.
Proof.
  unfold mcp_endpoint.
  destruct msg as [request token clock|request token clock|result|other];
    simpl.
  - unfold handle_referee_registration, register. simpl.
    by destruct (register_referee _ _ _ _) as [mgr [r|]].
  - unfold handle_player_registration, register. simpl.
    by destruct (register_player _ _ _ _) as [mgr [r|]].
  - unfold handle_match_result.
    destruct (update_from_result _ _) as [ledger [e|[]]]; [done|]. simpl.
    destruct (scheduler st) as [sched|]; [|done].
    by destruct (get_round_matches _ _).
  - done.
Qed.

(** Requests leave the tournament variables alone. *)
Lemma mcp_endpoint_tournament st msg :
  scheduler (mcp_endpoint st msg).1.1 = scheduler st ∧
  current_round (mcp_endpoint st msg).1.1 = current_round st ∧
  tournament_started (mcp_endpoint st msg).1.1 = tournament_started st.
Proof.
  unfold mcp_endpoint.
  destruct msg as [request token clock|request token clock|result|other];
    simpl.
  - unfold handle_referee_registration.
    by destruct (register_referee _ _ _ _) as [mgr [r|]].
  - unfold handle_player_registration.
    by destruct (register_player _ _ _ _) as [mgr [r|]].
  - unfold handle_match_result.
    destruct (update_from_result _ _) as [ledger [e|[]]]; [done|]. simpl.
    destruct (scheduler st) as [sched|]; [|done].
    by destruct (get_round_matches _ _).
  - done.
Qed.

Lemma serve_cons st msg msgs :
  serve st (msg :: msgs)
  = ((serve (mcp_endpoint st msg).1.1 msgs).1,
     (mcp_endpoint st msg).2 ++ (serve (mcp_endpoint st msg).1.1 msgs).2).
Proof.
  simpl. destruct (mcp_endpoint st msg) as [[st1 reply] tasks]. simpl.
  by destruct (serve st1 msgs).
Qed.

Lemma attempts_in_cons msg msgs :
  attempts_in (msg :: msgs)
  = match attempt_of msg with
    | Some a => a :: attempts_in msgs
    | None => attempts_in msgs
    end.
Proof. done. Qed.

Lemma serve_registration msgs : ∀ st,
  registration_mgr (serve st msgs).1
  = after (registration_mgr st) (attempts_in msgs).
Proof.
  induction msgs as [|msg msgs IH]; intros st; [done|].
  rewrite serve_cons. cbn [fst]. rewrite IH, mcp_endpoint_registration.
  rewrite attempts_in_cons. by destruct (attempt_of msg).
Qed.

Lemma serve_tournament msgs : ∀ st,
  scheduler (serve st msgs).1 = scheduler st ∧
  current_round (serve st msgs).1 = current_round st ∧
  tournament_started (serve st msgs).1 = tournament_started st.
Proof.
  induction msgs as [|msg msgs IH]; intros st; [done|].
  rewrite serve_cons. simpl.
  destruct (IH (mcp_endpoint st msg).1.1) as (-> & -> & ->).
  apply mcp_endpoint_tournament.
Qed.

(** While the scheduler is unset, a request creates a task only when
    it is a registration that is accepted and completes the roster. *)
Lemma mcp_endpoint_tasks st msg :
  scheduler st = None →
  (mcp_endpoint st msg).2
  = match attempt_of msg with
    | Some a =>
        if bool_decide (is_Some (register (registration_mgr st) a).2)
           && all_registered (register (registration_mgr st) a).1
        then [StartTournament] else []
    | None => []
    end.
Proof.
  intros Hnone. unfold mcp_endpoint.
  destruct msg as [request token clock|request token clock|result|other];
    simpl.
  - unfold handle_referee_registration, register. simpl.
    destruct (register_referee _ _ _ _) as [mgr [r|]]; simpl; [|done].
    by destruct (all_registered mgr).
  - unfold handle_player_registration, register. simpl.
    destruct (register_player _ _ _ _) as [mgr [r|]]; simpl; [|done].
    by destruct (all_registered mgr).
  - unfold handle_match_result.
    destruct (update_from_result _ _) as [ledger [e|[]]]; [done|]. simpl.
    by rewrite Hnone.
  - done.
Qed.

(** A full roster takes nobody else, and a refused registration changes
    nothing. *)
Lemma register_full self a :
  all_registered self = true → register self a = (self, None).
Proof.
  unfold all_registered. rewrite andb_true_iff, !bool_decide_eq_true.
  intros [Hr Hp]. unfold register, register_referee, register_player.
  rewrite Hr, Hp. by destruct (who a).
Qed.

Lemma register_refused self a :
  (register self a).2 = None → (register self a).1 = self.
Proof.
  unfold register, register_referee, register_player.
  destruct (who a); [destruct (referee_count self >=? 2)
                    |destruct (player_count self >=? 4)]; done.
Qed.

Lemma after_full attempts : ∀ self,
  all_registered self = true → after self attempts = self.
Proof.
  induction attempts as [|a attempts IH]; intros self Hfull; [done|].
  rewrite after_cons, register_full by done. by apply IH.
Qed.

Lemma serve_tasks msgs : ∀ st,
  scheduler st = None →
  (serve st msgs).2
  = if all_registered (registration_mgr st) then []
    else if all_registered (after (registration_mgr st) (attempts_in msgs))
         then [StartTournament] else [].
Proof.
  induction msgs as [|msg msgs IH]; intros st Hnone.
  { cbn. by destruct (all_registered _). }
  rewrite serve_cons. cbn [snd].
  rewrite mcp_endpoint_tasks by done.
  rewrite IH by (by rewrite (proj1 (mcp_endpoint_tournament st msg))).
  rewrite mcp_endpoint_registration, attempts_in_cons.
  destruct (attempt_of msg) as [a|]; [|done].
  rewrite after_cons.
  destruct (all_registered (registration_mgr st)) eqn:Hfull.
  { rewrite register_full by done. cbn [fst snd]. rewrite Hfull.
    by rewrite andb_comm. }
  destruct (register (registration_mgr st) a) as [mgr [r|]] eqn:Hreg;
    cbn [fst snd].
  - rewrite bool_decide_eq_true_2 by eauto. cbn [andb].
    destruct (all_registered mgr) eqn:Hfull1; [|done].
    by rewrite after_full, Hfull1.
  - rewrite bool_decide_eq_false_2 by (by intros [? ?]). cbn [andb app].
    pose proof (register_refused (registration_mgr st) a) as Hsame.
    rewrite Hreg in Hsame. cbn [fst snd] in Hsame. rewrite Hsame by done.
    by rewrite Hfull.
Qed.

(** X23. Whatever requests reach a freshly started league manager, and
    in whatever order, [start_tournament] is created exactly once if at
    least two of them are referee registrations and at least four are
    player registrations, and not at all otherwise; as long as
    [start_tournament] has not run, no other task is created. *)
Theorem serve_creates_start_tournament_once (msgs : list message) :
  (serve initial msgs).2
  = if bool_decide (2 ≤ attempts_of Referee (attempts_in msgs) ∧
                    4 ≤ attempts_of Player (attempts_in msgs))
    then [StartTournament] else [].
Proof.
  rewrite serve_tasks by done.
  change (registration_mgr initial) with Registration.init.
  change (all_registered Registration.init) with false. cbv iota.
  destruct (counters_after (attempts_in msgs)) as [Hr Hp].
  pose proof (attempts_of_nonneg Referee (attempts_in msgs)).
  pose proof (attempts_of_nonneg Player (attempts_in msgs)).
  unfold all_registered. rewrite Hr, Hp.
  rewrite <-bool_decide_and.
  erewrite bool_decide_ext; [reflexivity|lia].
Qed.






(** With the roster full the two maps list the ids in the order of
    issue. *)
Lemma full_roster_ids (attempts : list attempt) :
  2 ≤ attempts_of Referee attempts →
  4 ≤ attempts_of Player attempts →
  dict_keys (referees (after Registration.init attempts)) = ["REF01"; "REF02"] ∧
  get_all_player_ids (after Registration.init attempts)
    = ["P01"; "P02"; "P03"; "P04"].
Proof.
  intros Hr Hp.
  destruct (roster_after attempts Registration.init 0 0 roster_init)
    as (nr & np & Hroster & _).
  destruct (counters_after attempts) as [Hrc Hpc].
  destruct Hroster as (Hrc' & Hpc' & _ & _ & Hrk & Hpk & _).
  assert (nr = 2%nat) as -> by lia. assert (np = 4%nat) as -> by lia.
  unfold get_all_player_ids. by rewrite Hrk, Hpk.
Qed.

(** X25. Once the requests handled since the start include two referee
    registrations and four player registrations, [start_tournament]
    sets up the round robin of P01, P02, P03, P04 with REF01 on the
    first and REF02 on the second match of every round, which passes
    [validate_schedule], makes round 1 the current round and goes on to
    start it; the registrations, the ledger and the stored results are
    untouched.  Run a second time it does nothing. *)
Theorem start_tournament_after_registration (msgs : list message) :
  2 ≤ attempts_of Referee (attempts_in msgs) →
  4 ≤ attempts_of Player (attempts_in msgs) →
  let st := (serve initial msgs).1 in
  start_tournament st = (in_round st 1, inr true) ∧
  start_tournament (in_round st 1) = (in_round st 1, inr false).
Proof.
  intros Hr Hp st. split; [|done].
  destruct (full_roster_ids (attempts_in msgs) Hr Hp) as [Hrefs Hplayers].
  destruct (serve_tournament msgs initial) as (_ & _ & Hstarted).
  unfold start_tournament. fold st in Hstarted. rewrite Hstarted.
  unfold st. rewrite serve_registration.
  change (registration_mgr initial) with Registration.init.
  rewrite Hrefs, Hplayers.
  assert (generate_schedule
            (Scheduler.init ["P01"; "P02"; "P03"; "P04"] ["REF01"; "REF02"])
          = (mkScheduler ["P01"; "P02"; "P03"; "P04"] ["REF01"; "REF02"]
               (round_robin "P01" "P02" "P03" "P04" "REF01" "REF02"),
             inr (round_robin "P01" "P02" "P03" "P04" "REF01" "REF02")))
    as -> by (vm_compute; reflexivity).
  assert (validate_schedule
            (mkScheduler ["P01"; "P02"; "P03"; "P04"] ["REF01"; "REF02"]
               (round_robin "P01" "P02" "P03" "P04" "REF01" "REF02"))
          = inr true) as -> by (vm_compute; reflexivity).
  unfold in_round. by rewrite serve_registration.
Qed.

Lemma start_tournament_after_registration_witness :
  let st := (serve initial sample_requests).1 in
  start_tournament st = (in_round st 1, inr true) ∧
  start_tournament (in_round st 1) = (in_round st 1, inr false).
Proof.
  apply (start_tournament_after_registration sample_requests);
    vm_compute; discriminate.
Defined.


Lemma elem_of_dict_keys_set {V} (d : pydict V) k v k' :
  k' ∈ dict_keys (dict_set d k v) ↔ k' = k ∨ k' ∈ dict_keys d.
Proof.
  destruct (decide (k' = k)) as [->|Hne].
  - split; [auto|]. intros _.
    apply (dict_get_Some_key _ _ v), dict_get_set_eq.
  - split.
    + intros Hin. right.
      destruct (decide (k' ∈ dict_keys d)) as [|Hnin]; [done|].
      apply dict_get_None in Hnin.
      assert (dict_get (dict_set d k v) k' = None) as Hnone.
      { by rewrite dict_get_set_ne. }
      by apply dict_get_None in Hnone.
    + intros [?|Hin]; [done|].
      destruct (dict_get d k') as [x|] eqn:Hx.
      * apply (dict_get_Some_key _ _ x). by rewrite dict_get_set_ne.
      * by apply dict_get_None in Hx.
Qed.

Lemma get_round_matches_returns sched round_num :
  ∃ round_matches, get_round_matches sched round_num = inr round_matches.
Proof.
  unfold get_round_matches. case_decide as Hin; [|eauto].
  destruct (lookup_lt_is_Some_2 (schedule sched) (Z.to_nat (round_num - 1)))
    as [round Hround]; [lia|].
  exists round. apply index_lookup; [lia | done].
Qed.

(** X26. Once the scheduler is set, a report that the ledger takes is
    acknowledged and stored under its match id, and [finish_round] is
    created exactly when every match of the current round then has a
    stored result: the match reported now, or one stored before.  So a
    repeated report for a finished round creates the task again, a
    report kept from before the round began counts, and in a round
    without matches every report creates it. *)
Theorem handle_match_result_round_complete
    (st : state) (result : MatchResult.t) (sched : TournamentScheduler) :
  scheduler st = Some sched →
  (update_from_result result (standings_mgr st)).2 = inr () →
  ∃ round_matches,
    get_round_matches sched (current_round st) = inr round_matches ∧
    (handle_match_result st result).1.2 = Acknowledged ∧
    match_results (handle_match_result st result).1.1
      = dict_set (match_results st) (MatchResult.match_id result) result ∧
    current_round (handle_match_result st result).1.1 = current_round st ∧
    (handle_match_result st result).2
      = if decide
             (Forall (λ m, Match.match_id m = MatchResult.match_id result ∨
                           Match.match_id m ∈ dict_keys (match_results st))
                     round_matches)
        then [FinishRound] else [].
Proof.
  intros Hsched Hok.
  destruct (get_round_matches_returns sched (current_round st))
    as [round_matches Hround].
  exists round_matches. split; [done|].
  unfold handle_match_result.
  destruct (update_from_result result (standings_mgr st))
    as [ledger [e|[]]]; [done|].
  rewrite Hsched, Hround. cbn [fst snd match_results current_round].
  split; [done|]. split; [done|]. split; [done|].
  set (stored := λ m : Match.t, bool_decide _).
  destruct (forallb stored round_matches) eqn:Hall.
  - rewrite decide_True; [done|].
    apply Is_true_true, forallb_True in Hall.
    eapply Forall_impl; [exact Hall|]. intros m Hs.
    unfold stored in Hs. apply bool_decide_unpack in Hs.
    by apply elem_of_dict_keys_set in Hs.
  - rewrite decide_False; [done|]. intros Hforall.
    assert (Is_true (forallb stored round_matches)) as Htrue;
      [|by rewrite Hall in Htrue].
    apply forallb_True. eapply Forall_impl; [exact Hforall|]. intros m Hm.
    unfold stored. by apply bool_decide_pack, elem_of_dict_keys_set.
Qed.

Lemma handle_match_result_round_complete_witness :
  let st := in_round (serve initial sample_requests).1 1 in
  let result :=
    MatchResult.mk "R1" "R1M2" None [("P03", 1); ("P04", 1)] None in
  ∃ round_matches,
    get_round_matches
      (mkScheduler ["P01"; "P02"; "P03"; "P04"] ["REF01"; "REF02"]
         (round_robin "P01" "P02" "P03" "P04" "REF01" "REF02"))
      (current_round st) = inr round_matches ∧
    (handle_match_result st result).1.2 = Acknowledged ∧
    match_results (handle_match_result st result).1.1
      = dict_set (match_results st) (MatchResult.match_id result) result ∧
    current_round (handle_match_result st result).1.1 = current_round st ∧
    (handle_match_result st result).2
      = if decide
             (Forall (λ m, Match.match_id m = MatchResult.match_id result ∨
                           Match.match_id m ∈ dict_keys (match_results st))
                     round_matches)
        then [FinishRound] else [].
Proof.
  apply (handle_match_result_round_complete
           (in_round (serve initial sample_requests).1 1)
           (MatchResult.mk "R1" "R1M2" None [("P03", 1); ("P04", 1)] None));
    reflexivity.
Defined.

(** The report of the second match of round 1 finishes the round when
    the first was reported before the tournament began; reporting it
    once more creates the task once more. *)
Example early_report_counts :
  let st := in_round (serve initial sample_requests).1 1 in
  let result :=
    MatchResult.mk "R1" "R1M2" None [("P03", 1); ("P04", 1)] None in
  (handle_match_result st result).2 = [FinishRound] ∧
  (handle_match_result (handle_match_result st result).1.1 result).2
  = [FinishRound].
Proof. vm_compute. done. Qed.

(** X27. Before [start_tournament] has run, whatever requests came
    first, a match report is answered with status 500 and creates no
    task; all the same the ledger is updated as far as
    [update_from_result] gets, and if that does not raise the result is
    stored. *)
Theorem report_before_start (msgs : list message) (result : MatchResult.t) :
  let st := (serve initial msgs).1 in
  let booked := update_from_result result (standings_mgr st) in
  mcp_endpoint st (MatchResultReport result)
  = (mkState (registration_mgr st) booked.1 None 0
       (match booked.2 with
        | inr _ =>
            dict_set (match_results st) (MatchResult.match_id result) result
        | inl _ => match_results st
        end)
       false,
     HttpError 500, []).
Proof.
  intros st booked. subst booked.
  destruct (serve_tournament msgs initial) as (Hsched & Hround & Hstarted).
  fold st in Hsched, Hround, Hstarted. simpl in Hsched, Hround, Hstarted.
  unfold mcp_endpoint, handle_match_result.
  destruct (update_from_result result (standings_mgr st))
    as [ledger [e|[]]]; cbn [fst snd].
  - by rewrite Hsched, Hround, Hstarted.
  - by rewrite Hsched, Hround, Hstarted.
Qed.

Lemma group_by_referee_snoc ms m :
  group_by_referee (ms ++ [m])
  = dict_alter (λ l, l ++ [m]) (Match.referee_id m)
      (if decide (Match.referee_id m ∈ dict_keys (group_by_referee ms))
       then group_by_referee ms
       else dict_set (group_by_referee ms) (Match.referee_id m) []).
Proof. unfold group_by_referee. by rewrite foldl_app. Qed.

(** X28. The grouping at the head of [start_round] gives every referee
    of the round its matches, all of them and in the order of the round,
    and has no entry for anybody else. *)
Theorem group_by_referee_lookup (round_matches : list Match.t) (ref : string) :
  dict_get (group_by_referee round_matches) ref
  = let own := filter (λ m, Match.referee_id m = ref) round_matches in
    if decide (own = []) then None else Some own.
Proof.
  cbv zeta.
  induction round_matches as [|m ms IH] using rev_ind; [done|].
  rewrite group_by_referee_snoc.
  set (grouped := group_by_referee ms) in *.
  rewrite filter_app, filter_cons, filter_nil.
  destruct (decide (Match.referee_id m = ref)) as [<-|Hother].
  - rewrite dict_get_alter_eq.
    assert (∀ own : list Match.t, own ++ [m] ≠ []) as Hne.
    { by intros [|? ?]. }
    destruct (decide (Match.referee_id m ∈ dict_keys grouped)) as [Hin|Hnin].
    + rewrite IH.
      destruct (decide (filter _ ms = [])) as [Hnil|Hsome].
      * exfalso. by apply dict_get_None in IH.
      * simpl. by rewrite decide_False by apply Hne.
    + rewrite dict_get_set_eq. simpl. rewrite decide_False by apply Hne.
      apply dict_get_None in Hnin. rewrite IH in Hnin.
      destruct (decide (filter _ ms = [])) as [->|]; done.
  - rewrite dict_get_alter_ne by done. rewrite app_nil_r.
    destruct (decide (Match.referee_id m ∈ dict_keys grouped)); [done|].
    by rewrite dict_get_set_ne.
Qed.
